(** * ABTestProportionsTool: a shallow embedding of [ab_test_stats.py]

    The tool takes a table with one row per observation (group label,
    positive rate in percent, number of trials), derives an integer
    [positive_count] column, and runs a two-proportion z-test (two distinct
    groups) or a chi-square test followed by pairwise z-tests (any other
    number of distinct groups).

    Numbers are modelled as the program has them: the rate column and every
    statistic are IEEE-754 binary64 values ([spec_float] at precision 53,
    round to nearest even), the count and total columns are 64-bit signed
    integers carried in [Z] with the wrap-around written out. *)

From Stdlib Require Import ZArith QArith Qpower Lqa List String Bool Lia Permutation.
From Stdlib Require Import Floats.SpecFloat.
Import ListNotations.

Local Open Scope string_scope.
Local Open Scope Z_scope.

(** ** binary64 arithmetic *)

Module Float64.

Definition prec : Z := 53.
Definition emax : Z := 1024.

Definition float := spec_float.

Definition nan : float := S754_nan.
Definition zero : float := S754_zero false.

Definition add : float -> float -> float := SFadd prec emax.
Definition sub : float -> float -> float := SFsub prec emax.
Definition mul : float -> float -> float := SFmul prec emax.
Definition div : float -> float -> float := SFdiv prec emax.
Definition sqrt : float -> float := SFsqrt prec emax.
Definition abs : float -> float := SFabs.
Definition ltb : float -> float -> bool := SFltb.
Definition leb : float -> float -> bool := SFleb.

(** Conversion of an integer to the nearest binary64 value (ties to even),
    as numpy does when an int64 array meets a float64 operand. *)
Definition of_int (z : Z) : float := binary_normalize prec emax z 0 false.

Definition one : float := of_int 1.
Definition two : float := of_int 2.
Definition hundred : float := of_int 100.

Definition is_finite (x : float) : bool :=
  match x with
  | S754_zero _ | S754_finite _ _ _ => true
  | S754_infinity _ | S754_nan => false
  end.

(** The integer nearest to [m / 2^k], ties to the even one ([m], [k] >= 0). *)
Definition round_half_even (m k : Z) : Z :=
  let q := m / 2 ^ k in
  let r := m mod 2 ^ k in
  match Z.compare (2 * r) (2 ^ k) with
  | Lt => q
  | Gt => q + 1
  | Eq => if Z.even q then q else q + 1
  end.

(** [numpy.rint]: round to an integral value, ties to even, keeping the
    sign of a zero result. *)
Definition rint (x : float) : float :=
  match x with
  | S754_finite s m e =>
      if 0 <=? e then x
      else
        match round_half_even (Zpos m) (- e) with
        | Z0 => S754_zero s
        | n => binary_normalize prec emax (cond_Zopp s n) 0 s
        end
  | _ => x
  end.

(** Truncation toward zero of a finite value. *)
Definition trunc (x : float) : Z :=
  match x with
  | S754_finite s m e =>
      cond_Zopp s (if 0 <=? e then Zpos m * 2 ^ e else Zpos m / 2 ^ (- e))
  | _ => 0
  end.

End Float64.

(** ** 64-bit signed integers *)

Definition int64_min : Z := - 2 ^ 63.
Definition int64_max : Z := 2 ^ 63 - 1.

Definition wrap64 (z : Z) : Z := (z + 2 ^ 63) mod 2 ^ 64 - 2 ^ 63.

(** Sum of an int64 array: the accumulator wraps at every step. *)
Definition sum64 (l : list Z) : Z :=
  fold_left (fun acc x => wrap64 (acc + x)) l 0.

(** ** Exceptions and outcomes *)

Inductive Exception : Type :=
| ValueError (msg : string)
| KeyError (key : string)
| IndexError
| IntCastingNaNError
| FloatCountColumn.

Inductive Outcome (A : Type) : Type :=
| Returned (a : A)
| Raised (e : Exception).

Arguments Returned {A} a.
Arguments Raised {A} e.

(** ** The table *)

Record Row : Type := mkRow {
  group : string;
  positive_rate : Float64.float;
  total : Z
}.

(** A [DataFrame] holds the three caller-supplied columns, one [Row] per
    line, and possibly the derived column ["positive_count"]: absent before
    [calculate_counts] ran, of dtype float64 between its two assignments, of
    dtype int64 once it returned. *)
Inductive DataFrame : Type :=
| Frame (rs : list Row)
| FrameF (rs : list (Row * Float64.float))
| FrameI (rs : list (Row * Z)).

Definition rows (df : DataFrame) : list Row :=
  match df with
  | Frame rs => rs
  | FrameF rs => map fst rs
  | FrameI rs => map fst rs
  end.

(** [df[group_col]] *)
Definition labels (df : DataFrame) : list string := map group (rows df).

(** [Series.unique()]: the distinct values in order of first appearance. *)
Fixpoint unique (l : list string) : list string :=
  match l with
  | [] => []
  | x :: t => x :: filter (fun y => negb (String.eqb y x)) (unique t)
  end.

(** The integer-typed view of the frame the testers read.  A frame without
    the derived column raises [KeyError]; a frame whose derived column is
    still float64 (left behind by a [calculate_counts] that raised) is
    outside what is modelled and is reported as [FloatCountColumn]. *)
Definition counted (df : DataFrame) : Outcome (list (Row * Z)) :=
  match df with
  | Frame _ => Raised (KeyError "positive_count")
  | FrameF _ => Raised FloatCountColumn
  | FrameI rs => Returned rs
  end.

(** Sorting of the group keys, as [groupby] and [pivot_table] order their
    index. *)
Fixpoint insert_sorted (x : string) (l : list string) : list string :=
  match l with
  | [] => [x]
  | y :: t => if String.leb x y then x :: l else y :: insert_sorted x t
  end.

Definition sorted (l : list string) : list string :=
  fold_right insert_sorted [] l.

Definition rows_of (g : string) (rs : list (Row * Z)) : list (Row * Z) :=
  filter (fun rc => String.eqb (group (fst rc)) g) rs.

(** [groupby(group_col).sum()] restricted to the two columns that are read
    afterwards: one line per distinct label, in sorted order, carrying the
    int64 sums of ["positive_count"] and of the total column. *)
Definition groupby_sum (rs : list (Row * Z)) : list (string * (Z * Z)) :=
  map (fun g => (g, (sum64 (map snd (rows_of g rs)),
                     sum64 (map (fun rc => total (fst rc)) (rows_of g rs)))))
      (sorted (unique (map (fun rc => group (fst rc)) rs))).

(** [table.loc[g]] *)
Fixpoint loc (g : string) (table : list (string * (Z * Z))) : Outcome (Z * Z) :=
  match table with
  | [] => Raised (KeyError g)
  | (k, v) :: t => if String.eqb k g then Returned v else loc g t
  end.

(** [itertools.combinations(l, 2)] *)
Fixpoint combinations2 {A : Type} (l : list A) : list (A * A) :=
  match l with
  | [] => []
  | x :: t => map (pair x) t ++ combinations2 t
  end.

(** ** Results *)

Record PairwiseResult : Type := mkPairwise {
  group1 : string;
  group2 : string;
  pw_statistic : Float64.float;
  pw_p_value : Float64.float;
  pw_significance : string
}.

Record TestResult : Type := mkTestResult {
  statistic : Float64.float;
  p_value : Float64.float;
  significance : string;
  pairwise : option (list PairwiseResult)
}.

Record RunResult : Type := mkRunResult {
  test_used : string;
  run_results : TestResult
}.

(** ** The object and the monad of its methods *)

Record ABTestProportionsTool : Type := mkTool {
  data : DataFrame;
  alpha : Float64.float;
  results : option RunResult
}.

(** Calls into the statistics libraries, recorded in the order they are made. *)
Inductive Call : Type :=
| ZTestCall (count nobs : Z * Z)
| Chi2Call (observed : list (Z * Z)).

Record State : Type := mkState {
  self : ABTestProportionsTool;
  calls : list Call
}.

Definition M (A : Type) : Type := State -> Outcome A * State.

Definition ret {A : Type} (a : A) : M A := fun s => (Returned a, s).

Definition raise {A : Type} (e : Exception) : M A := fun s => (Raised e, s).

Definition bind {A B : Type} (m : M A) (k : A -> M B) : M B :=
  fun s =>
    match m s with
    | (Returned a, s') => k a s'
    | (Raised e, s') => (Raised e, s')
    end.

Definition lift {A : Type} (o : Outcome A) : M A := fun s => (o, s).

Notation "x <- m ;; k" := (bind m (fun x => k))
  (at level 61, m at next level, right associativity).
Notation "m ;;; k" := (bind m (fun _ => k))
  (at level 61, right associativity).

Definition get_self : M ABTestProportionsTool := fun s => (Returned (self s), s).

Definition set_data (df : DataFrame) : M unit :=
  fun s =>
    (Returned tt,
     mkState (mkTool df (alpha (self s)) (results (self s))) (calls s)).

Definition set_results (r : RunResult) : M unit :=
  fun s =>
    (Returned tt,
     mkState (mkTool (data (self s)) (alpha (self s)) (Some r)) (calls s)).

Definition record_call (c : Call) : M unit :=
  fun s => (Returned tt, mkState (self s) (calls s ++ [c])).

Fixpoint mapM {A B : Type} (f : A -> M B) (l : list A) : M (list B) :=
  match l with
  | [] => ret []
  | x :: t => y <- f x ;; ys <- mapM f t ;; ret (y :: ys)
  end.

(** ** The Aggregator *)

(** Conversion of an integral float64 to int64.  Values beyond the int64
    range come out as the minimum (the x86-64 conversion result). *)
Definition cast_int64 (x : Float64.float) : Z :=
  let z := Float64.trunc x in
  if (int64_min <=? z) && (z <=? int64_max) then z else int64_min.

(** [Series.astype(int)]: refuses a column holding NaN or an infinity. *)
Definition astype_int (v : list Float64.float) : Outcome (list Z) :=
  if forallb Float64.is_finite v then Returned (map cast_int64 v)
  else Raised IntCastingNaNError.

(** One cell of [(data[rate] / 100) * data[total]]. *)
Definition rate_times_total (r : Row) : Float64.float :=
  Float64.mul (Float64.div (positive_rate r) Float64.hundred)
              (Float64.of_int (total r)).

Definition calculate_counts : M unit :=
  t <- get_self ;;
  let rs := rows (data t) in
  let product := map rate_times_total rs in
  set_data (FrameF (combine rs product)) ;;;
  ints <- lift (astype_int (map Float64.rint product)) ;;
  set_data (FrameI (combine rs ints)).

(** ** The testers *)

Definition two_groups_message : string :=
  "This method is only for two groups. Use `test_multiple_groups` for more than two groups.".

Definition label_of (p a : Float64.float) : string :=
  if Float64.ltb p a then "significant" else "not significant".

Section Statistics.

(** The standard normal survival function and the chi-square test of
    independence are library routines; the development is parametric in
    them.  [chi2_contingency] yields the statistic and the p-value, or the
    exception it raised. *)
Variable norm_sf : Float64.float -> Float64.float.
Variable chi2_contingency : list (Z * Z) -> Outcome (Float64.float * Float64.float).

(** The two-sample case of statsmodels' [proportions_ztest(count, nobs)]
    with its defaults ([value = 0], two-sided, pooled variance), every step
    in binary64 as numpy evaluates it on int64 arrays:
    [prop = count * 1. / nobs], [diff = prop[0] - prop[1] - value],
    [p_pooled = sum(count) * 1. / sum(nobs)], [nobs_fact = sum(1. / nobs)],
    [std_diff = sqrt(p_pooled * (1 - p_pooled) * nobs_fact)],
    [zstat = diff / std_diff], [pvalue = norm.sf(abs(zstat)) * 2].  A
    division by zero yields an infinity or NaN, never an exception. *)
Definition proportions_ztest (count nobs : Z * Z) : Float64.float * Float64.float :=
  let '(c1, c2) := count in
  let '(n1, n2) := nobs in
  let prop1 := Float64.div (Float64.mul (Float64.of_int c1) Float64.one) (Float64.of_int n1) in
  let prop2 := Float64.div (Float64.mul (Float64.of_int c2) Float64.one) (Float64.of_int n2) in
  let diff := Float64.sub (Float64.sub prop1 prop2) Float64.zero in
  let p_pooled :=
    Float64.div (Float64.mul (Float64.of_int (sum64 [c1; c2])) Float64.one)
                (Float64.of_int (sum64 [n1; n2])) in
  let nobs_fact :=
    Float64.add (Float64.div Float64.one (Float64.of_int n1))
                (Float64.div Float64.one (Float64.of_int n2)) in
  let var_ := Float64.mul (Float64.mul p_pooled (Float64.sub Float64.one p_pooled)) nobs_fact in
  let std_diff := Float64.sqrt var_ in
  let zstat := Float64.div diff std_diff in
  let pvalue := Float64.mul (norm_sf (Float64.abs zstat)) Float64.two in
  (zstat, pvalue).

Definition call_ztest (count nobs : Z * Z) : M (Float64.float * Float64.float) :=
  record_call (ZTestCall count nobs) ;;;
  ret (proportions_ztest count nobs).

Definition call_chi2 (observed : list (Z * Z)) : M (Float64.float * Float64.float) :=
  record_call (Chi2Call observed) ;;;
  lift (chi2_contingency observed).

Definition test_two_groups : M (string * TestResult) :=
  t <- get_self ;;
  match unique (labels (data t)) with
  | [g0; g1] =>
      rs <- lift (counted (data t)) ;;
      let group_data := groupby_sum rs in
      s0 <- lift (loc g0 group_data) ;;
      s1 <- lift (loc g1 group_data) ;;
      let count := (fst s0, fst s1) in
      let nobs := (snd s0, snd s1) in
      sp <- call_ztest count nobs ;;
      let '(stat, p) := sp in
      let significance :=
        if Float64.ltb Float64.zero stat
        then "Group '" ++ g0 ++ "' is significantly greater than '" ++ g1 ++ "'"
        else "Group '" ++ g1 ++ "' is significantly greater than '" ++ g0 ++ "'" in
      let significance :=
        if Float64.leb (alpha t) p
        then "No significant difference between groups"
        else significance in
      let significance := label_of p (alpha t) in
      ret ("Proportions Z-Test", mkTestResult stat p significance None)
  | _ => raise (ValueError two_groups_message)
  end.

(** The first row of the group, as [data[data[group_col] == g]] followed by
    [.values[0]] on a column reads it. *)
Definition first_values (g : string) (rs : list (Row * Z)) : Outcome (Z * Z) :=
  match rows_of g rs with
  | [] => Raised IndexError
  | rc :: _ => Returned (snd rc, total (fst rc))
  end.

Definition post_hoc_pair (pr : string * string) : M PairwiseResult :=
  t <- get_self ;;
  rs <- lift (counted (data t)) ;;
  v1 <- lift (first_values (fst pr) rs) ;;
  v2 <- lift (first_values (snd pr) rs) ;;
  let count := (fst v1, fst v2) in
  let nobs := (snd v1, snd v2) in
  sp <- call_ztest count nobs ;;
  let '(stat, p) := sp in
  ret (mkPairwise (fst pr) (snd pr) stat p (label_of p (alpha t))).

Definition post_hoc_test : M (list PairwiseResult) :=
  t <- get_self ;;
  let pairs := combinations2 (unique (labels (data t))) in
  mapM post_hoc_pair pairs.

(** The [pivot_table] of sums with its [negative_count] column, as the array
    of (positive, negative) lines handed to the chi-square test. *)
Definition observed_table (rs : list (Row * Z)) : list (Z * Z) :=
  map (fun kv => (fst (snd kv), wrap64 (snd (snd kv) - fst (snd kv))))
      (groupby_sum rs).

Definition test_multiple_groups : M (string * TestResult) :=
  t <- get_self ;;
  rs <- lift (counted (data t)) ;;
  let observed := observed_table rs in
  cp <- call_chi2 observed ;;
  let '(chi2, p) := cp in
  let significance := label_of p (alpha t) in
  if Float64.ltb p (alpha t) then
    pairwise_results <- post_hoc_test ;;
    ret ("Chi-Square Test", mkTestResult chi2 p significance (Some pairwise_results))
  else
    ret ("Chi-Square Test", mkTestResult chi2 p significance None).

(** ** The Orchestrator *)

Definition run : M RunResult :=
  calculate_counts ;;;
  t <- get_self ;;
  let groups := unique (labels (data t)) in
  tr <- (if Nat.eqb (List.length groups) 2 then test_two_groups else test_multiple_groups) ;;
  let r := mkRunResult (fst tr) (snd tr) in
  set_results r ;;;
  ret r.

(** ** Vocabulary of the properties about the testers *)

(** What one line of the pairwise table is, given the frame it was computed
    from. *)
Definition pairwise_line (t : ABTestProportionsTool) (pr : string * string)
    (q : PairwiseResult) : Prop :=
  exists rs v1 v2,
    counted (data t) = Returned rs /\
    first_values (fst pr) rs = Returned v1 /\
    first_values (snd pr) rs = Returned v2 /\
    q = mkPairwise (fst pr) (snd pr)
          (fst (proportions_ztest (fst v1, fst v2) (snd v1, snd v2)))
          (snd (proportions_ztest (fst v1, fst v2) (snd v1, snd v2)))
          (label_of (snd (proportions_ztest (fst v1, fst v2) (snd v1, snd v2))) (alpha t)).

(** [run] is the Aggregator, then the tester the distinct-label count
    selects, then the assignment to [self.results]. *)
Definition tester (s : State) : M (string * TestResult) :=
  if Nat.eqb (List.length (unique (labels (data (self s))))) 2
  then test_two_groups
  else test_multiple_groups.

(** The result of a z-test one of whose samples has no trial. *)
Definition nan_result (a : Float64.float) : TestResult :=
  mkTestResult Float64.nan (Float64.mul (norm_sf Float64.nan) Float64.two)
               (label_of (Float64.mul (norm_sf Float64.nan) Float64.two) a) None.

End Statistics.

(** ** Vocabulary of the properties

    Notions the statements below are written in. *)

(** [a] comes before [b] in [l]. *)
Definition precedes {A : Type} (a b : A) (l : list A) : Prop :=
  exists l1 l2 l3, l = (l1 ++ a :: l2 ++ b :: l3)%list.

(** The number of unordered pairs among [n] items. *)
Definition choose2 (n : nat) : nat := (n * (n - 1) / 2)%nat.

(** The label of a row of the counted frame. *)
Definition label (rc : Row * Z) : string := group (fst rc).

(** The first row of the frame whose label is [g]. *)
Definition first_row (g : string) (rs : list (Row * Z)) : option (Row * Z) :=
  find (fun rc => String.eqb (label rc) g) rs.

(** Sums over every row of the frame whose label is [g]. *)
Definition group_positive (g : string) (rs : list (Row * Z)) : Z :=
  sum64 (map snd (rows_of g rs)).

Definition group_total (g : string) (rs : list (Row * Z)) : Z :=
  sum64 (map (fun rc => total (fst rc)) (rows_of g rs)).

(** The count the Aggregator derives for a row. *)
Definition count_of (r : Row) : Z := cast_int64 (Float64.rint (rate_times_total r)).

(** The state in which the post-hoc comparison starts: the chi-square call
    has been recorded. *)
Definition after_chi2 (s : State) (observed : list (Z * Z)) : State :=
  mkState (self s) (calls s ++ [Chi2Call observed]).

(** The threshold law for one line of the pairwise table. *)
Definition threshold_law (a : Float64.float) (q : PairwiseResult) : Prop :=
  pw_significance q = "significant" <-> Float64.ltb (pw_p_value q) a = true.

(** The Run Result record built from a tester's outcome and stored in
    [self.results]; an exception passes through. *)
Definition wrap_result (name : string) (o : Outcome (string * TestResult) * State)
  : Outcome RunResult * State :=
  match o with
  | (Returned tr, s2) =>
      (Returned (mkRunResult name (snd tr)),
       mkState (mkTool (data (self s2)) (alpha (self s2))
                       (Some (mkRunResult name (snd tr))))
               (calls s2))
  | (Raised e, s2) => (Raised e, s2)
  end.

(** What two runs of the two-group tester have in common when they agree up
    to the order of the groups. *)
Definition same_up_to_sign (o o' : Outcome (string * TestResult)) : Prop :=
  match o, o' with
  | Returned (name, r), Returned (name', r') =>
      name = name' /\
      p_value r = p_value r' /\
      significance r = significance r' /\
      Float64.abs (statistic r) = Float64.abs (statistic r')
  | _, _ => False
  end.

(** A recorded call is a z-test call. *)
Definition is_ztest (c : Call) : bool :=
  match c with
  | ZTestCall _ _ => true
  | Chi2Call _ => false
  end.

(** The float64 column [calculate_counts] leaves behind when it raises. *)
Definition product_frame (rs : list Row) : DataFrame :=
  FrameF (map (fun r => (r, rate_times_total r)) rs).

(** A value an int64 column can hold. *)
Definition is_int64 (z : Z) : Prop := int64_min <= z <= int64_max.

(** What two runs of the multi-group tester have in common when they agree
    on the omnibus test. *)
Definition same_omnibus (o o' : Outcome (string * TestResult)) : Prop :=
  match o, o' with
  | Returned (name, r), Returned (name', r') =>
      name = name' /\
      statistic r = statistic r' /\
      p_value r = p_value r' /\
      significance r = significance r' /\
      (pairwise r = None <-> pairwise r' = None)
  | Raised e, Raised e' => e = e'
  | _, _ => False
  end.

(** What two runs have in common when they differ in alpha only: the test
    chosen and its numbers, or the exception. *)
Definition same_test_values (o o' : Outcome RunResult) : Prop :=
  match o, o' with
  | Returned r, Returned r' =>
      test_used r = test_used r' /\
      statistic (run_results r) = statistic (run_results r') /\
      p_value (run_results r) = p_value (run_results r')
  | Raised e, Raised e' => e = e'
  | _, _ => False
  end.

(** ** Exact values

    The value of a binary64 number as a rational, to state how far a
    computed result is from the exact one. *)

Section Values.

Local Open Scope Q_scope.

(** [2^e], for any integer [e]. *)
Definition pow2 (e : Z) : Q := 2 ^ e.

(** [bracket m l x]: the exact value [x], in units of the last place, lies
    in [[m, m + 1)] at the position the location [l] tells. *)
Definition bracket (m : Z) (l : location) (x : Q) : Prop :=
  match l with
  | loc_Exact => x == inject_Z m
  | loc_Inexact Lt => inject_Z m < x /\ x < inject_Z m + (1 # 2)
  | loc_Inexact Eq => x == inject_Z m + (1 # 2)
  | loc_Inexact Gt => inject_Z m + (1 # 2) < x /\ x < inject_Z m + 1
  end.

(** The value of a finite binary64 number, as a rational. *)
Definition F2Q (x : Float64.float) : Q :=
  match x with
  | S754_finite s m e =>
      (if s then -1 else 1) * inject_Z (Zpos m) * pow2 e
  | _ => 0
  end.

(** A positive normal number: 53-digit mantissa, exponent in range. *)
Definition normal (x : Float64.float) : Prop :=
  match x with
  | S754_finite false m e => (2 ^ 52 <= Zpos m < 2 ^ 53)%Z /\ (-1074 <= e <= 971)%Z
  | _ => False
  end.

Definition expo (x : Float64.float) : Z :=
  match x with
  | S754_finite _ _ e => e
  | _ => 0
  end.

(** Unit roundoff of binary64. *)
Definition u64 : Q := 1 # 9007199254740992.

(** The rate of row [r] is a binary64 number within one rounding (relative
    error [u64]) of [100 * p / total], for a count [p] between 0 and the
    total, and the total is at most [2^49].  A rate that equals
    [100 * p / total] exactly is a special case; so is the binary64 quotient
    of [100 * p] by the total. *)
Definition within_one_rounding (r : Row) (p : Z) : Prop :=
  (0 <= p <= total r)%Z /\ (0 < total r <= 2 ^ 49)%Z /\
  valid_binary Float64.prec Float64.emax (positive_rate r) = true /\
  Float64.is_finite (positive_rate r) = true /\
  (1 - u64) * (inject_Z (100 * p) / inject_Z (total r)) <= F2Q (positive_rate r) /\
  F2Q (positive_rate r) <= (1 + u64) * (inject_Z (100 * p) / inject_Z (total r)).

End Values.

(** Sample instances of the two library routines, used to evaluate the
    testers on concrete tables. *)
Definition sample_norm_sf (x : Float64.float) : Float64.float :=
  match x with
  | S754_nan => S754_nan
  | S754_infinity _ => Float64.zero
  | _ => Float64.div Float64.one (Float64.add Float64.two x)
  end.

Definition sample_chi2 (observed : list (Z * Z)) : Outcome (Float64.float * Float64.float) :=
  match observed with
  | [] => Raised (ValueError "No data; `observed` has size 0.")
  | _ => Returned (Float64.of_int (Z.of_nat (List.length observed)), Float64.zero)
  end.

(** Exact binary64 value of the decimal [n / d]. *)
Definition ratio (n d : Z) : Float64.float :=
  Float64.div (Float64.of_int n) (Float64.of_int d).

Definition fresh (rs : list Row) (a : Float64.float) : State :=
  mkState (mkTool (Frame rs) a None) [].

(** ** Sample tables *)

Definition alpha05 : Float64.float := ratio 5 100.

(** Two groups: A at 10 % of 1000, B at 15 % of 1000. *)
Definition two_group_rows : list Row :=
  [mkRow "A" (ratio 10 1) 1000; mkRow "B" (ratio 15 1) 1000].

(** Three groups, A on two rows, with its count column. *)
Definition three_group_frame : list (Row * Z) :=
  [(mkRow "B" (ratio 10 1) 10, 1); (mkRow "A" (ratio 15 1) 1000, 150);
   (mkRow "C" (ratio 15 1) 1000, 150); (mkRow "A" (ratio 50 1) 10, 5)].

Definition two_group_frame : list (Row * Z) :=
  [(mkRow "A" (ratio 10 1) 1000, 100); (mkRow "B" (ratio 15 1) 1000, 150)].

(** A group without trials. *)
Definition zero_total_rows : list Row :=
  [mkRow "A" (ratio 10 1) 0; mkRow "B" (ratio 15 1) 1000].

Definition zero_total_frame : list (Row * Z) :=
  [(mkRow "A" (ratio 10 1) 0, 0); (mkRow "B" (ratio 15 1) 1000, 150)].

(** A rate above 100 and a negative total. *)
Definition out_of_range_rows : list Row :=
  [mkRow "A" (ratio 150 1) 10; mkRow "B" (ratio 10 1) (-20)].

(** Rate exactly 100 on more trials than binary64 has integers for. *)
Definition huge_total : Z := 2 ^ 53 + 1.

Definition huge_total_rows : list Row := [mkRow "A" Float64.hundred huge_total].

(** One positive outcome in 8 trials (rate 12.5, exact in binary64) and one
    in 3 (rate 100/3, rounded). *)
Definition round_trip_rows : list Row :=
  [mkRow "A" (ratio 25 2) 8; mkRow "B" (ratio 100 3) 3].

(** A rate that is not a number, on the second of two rows. *)
Definition nan_rate_rows : list Row :=
  [mkRow "A" (ratio 10 1) 1000; mkRow "B" Float64.nan 1000].


(** Three groups, A on two rows, as the caller supplies them. *)
Definition three_group_rows : list Row := map fst three_group_frame.

Definition counted_state (rs : list (Row * Z)) (a : Float64.float) : State :=
  mkState (mkTool (FrameI rs) a None) [].

(** * Properties *)

(** ** Generic facts about the monad *)

Lemma bind_returned {A B : Type} (m : M A) (k : A -> M B) s a s' :
  m s = (Returned a, s') -> bind m k s = k a s'.
Proof. intros H. unfold bind. now rewrite H. Qed.

Lemma bind_raised {A B : Type} (m : M A) (k : A -> M B) s e s' :
  m s = (Raised e, s') -> bind m k s = (Raised e, s').
Proof. intros H. unfold bind. now rewrite H. Qed.

Lemma bind_inv {A B : Type} (m : M A) (k : A -> M B) s b s2 :
  bind m k s = (Returned b, s2) ->
  exists a s1, m s = (Returned a, s1) /\ k a s1 = (Returned b, s2).
Proof.
  unfold bind. destruct (m s) as [[a|e] s1]; intros H.
  - now exists a, s1.
  - discriminate.
Qed.

Lemma lift_inv {A : Type} (o : Outcome A) s a s' :
  lift o s = (Returned a, s') -> o = Returned a /\ s' = s.
Proof. unfold lift. intros H. inversion H. auto. Qed.

(** An invariant of the state kept by one step is kept by a loop. *)
Lemma mapM_invariant {A B : Type} (P : State -> Prop) (f : A -> M B) :
  (forall x s o s', P s -> f x s = (o, s') -> P s') ->
  forall l s o s', P s -> mapM f l s = (o, s') -> P s'.
Proof.
  intros Hf l. induction l as [|x t IH]; intros s o s' HP H; simpl in H.
  - inversion H. now subst.
  - unfold bind in H. destruct (f x s) as [[y|e] s1] eqn:E.
    + assert (HP1 : P s1) by (eapply Hf; eauto).
      destruct (mapM f t s1) as [[ys|e] s2] eqn:E2.
      * inversion H. subst. eapply IH; eauto.
      * inversion H. subst. eapply IH; eauto.
    + inversion H. subst. eapply Hf; eauto.
Qed.

Lemma mapM_returned {A B : Type} (P : State -> Prop) (f : A -> M B) :
  (forall x s o s', P s -> f x s = (o, s') -> P s') ->
  forall l s ys s', P s -> mapM f l s = (Returned ys, s') ->
  Forall2 (fun x y => exists s1 s2, P s1 /\ f x s1 = (Returned y, s2)) l ys.
Proof.
  intros Hf l. induction l as [|x t IH]; intros s ys s' HP H; simpl in H.
  - inversion H. constructor.
  - unfold bind in H. destruct (f x s) as [[y|e] s1] eqn:E; [|discriminate].
    destruct (mapM f t s1) as [[zs|e] s2] eqn:E2; [|discriminate].
    inversion H. subst. constructor.
    + now exists s, s1.
    + eapply IH; [|exact E2]. eapply Hf; eauto.
Qed.

(** ** What each method does to the state and what it returns *)

Lemma map_fst_combine {A B : Type} (l : list A) (l' : list B) :
  List.length l' = List.length l -> map fst (combine l l') = l.
Proof.
  revert l'. induction l as [|x t IH]; intros [|y t'] H; simpl in *;
    try reflexivity; try discriminate.
  f_equal. apply IH. now injection H.
Qed.

Lemma astype_int_length v ints :
  astype_int v = Returned ints -> List.length ints = List.length v.
Proof.
  unfold astype_int. destruct (forallb Float64.is_finite v); intros H;
    inversion H. apply length_map.
Qed.

(** [calculate_counts] either leaves an int64 column and returns, or leaves
    the float64 column of products and raises. *)
Lemma calculate_counts_spec s :
  let rs := rows (data (self s)) in
  let product := map rate_times_total rs in
  calculate_counts s =
  match astype_int (map Float64.rint product) with
  | Returned ints =>
      (Returned tt,
       mkState (mkTool (FrameI (combine rs ints)) (alpha (self s)) (results (self s)))
               (calls s))
  | Raised e =>
      (Raised e,
       mkState (mkTool (FrameF (combine rs product)) (alpha (self s)) (results (self s)))
               (calls s))
  end.
Proof.
  intros rs product. unfold calculate_counts, bind, get_self, set_data, lift.
  simpl. fold rs. fold product.
  destruct (astype_int (map Float64.rint product)); reflexivity.
Qed.

Lemma calculate_counts_rows s :
  rows (data (self (snd (calculate_counts s)))) = rows (data (self s)).
Proof.
  rewrite calculate_counts_spec.
  destruct (astype_int _) as [ints|e] eqn:E; simpl.
  - apply map_fst_combine. apply astype_int_length in E.
    now rewrite E, !length_map.
  - apply map_fst_combine. now rewrite length_map.
Qed.

Lemma calculate_counts_alpha s :
  alpha (self (snd (calculate_counts s))) = alpha (self s).
Proof.
  rewrite calculate_counts_spec. destruct (astype_int _); reflexivity.
Qed.

Lemma calculate_counts_calls s :
  calls (snd (calculate_counts s)) = calls s.
Proof.
  rewrite calculate_counts_spec. destruct (astype_int _); reflexivity.
Qed.

(** ** Distinct labels and their pairs *)

Lemma unique_In x l : In x (unique l) <-> In x l.
Proof.
  induction l as [|y t IH]; simpl; [tauto|].
  rewrite filter_In, IH. split.
  - intros [H|[H _]]; auto.
  - intros [H|H]; auto.
    destruct (String.eqb x y) eqn:E.
    + apply String.eqb_eq in E. auto.
    + right. split; [exact H|]. reflexivity.
Qed.

Lemma unique_NoDup l : NoDup (unique l).
Proof.
  induction l as [|y t IH]; simpl; constructor.
  - rewrite filter_In. cbv beta. intros [_ H]. now rewrite String.eqb_refl in H.
  - now apply NoDup_filter.
Qed.

Lemma combinations2_length_twice {A : Type} (l : list A) :
  (2 * List.length (combinations2 l) = List.length l * (List.length l - 1))%nat.
Proof.
  induction l as [|x t IH]; simpl; [reflexivity|].
  rewrite length_app, length_map. nia.
Qed.

Lemma combinations2_length {A : Type} (l : list A) :
  List.length (combinations2 l) = choose2 (List.length l).
Proof.
  unfold choose2. rewrite <- combinations2_length_twice.
  rewrite Nat.mul_comm, Nat.div_mul; [reflexivity|discriminate].
Qed.

Lemma combinations2_In {A : Type} (a b : A) (l : list A) :
  In (a, b) (combinations2 l) <-> precedes a b l.
Proof.
  induction l as [|x t IH]; simpl.
  - split; [tauto|]. intros (l1 & l2 & l3 & H). now destruct l1.
  - rewrite in_app_iff, in_map_iff, IH. split.
    + intros [(y & Hy & Hin)|(l1 & l2 & l3 & ->)].
      * inversion Hy. subst. apply in_split in Hin.
        destruct Hin as (l2 & l3 & ->). now exists [], l2, l3.
      * now exists (x :: l1), l2, l3.
    + intros (l1 & l2 & l3 & H). destruct l1 as [|z l1]; simpl in H.
      * inversion H. subst. left. exists b. split; [reflexivity|].
        apply in_or_app. right. now left.
      * inversion H. subst. right. now exists l1, l2, l3.
Qed.

Lemma combinations2_In_both {A : Type} (a b : A) (l : list A) :
  In (a, b) (combinations2 l) -> In a l /\ In b l.
Proof.
  rewrite combinations2_In. intros (l1 & l2 & l3 & ->). split.
  - apply in_or_app. right. now left.
  - apply in_or_app. right. right. apply in_or_app. right. now left.
Qed.

Lemma combinations2_NoDup {A : Type} (l : list A) :
  NoDup l -> NoDup (combinations2 l).
Proof.
  induction l as [|x t IH]; simpl; intros Hnd; [constructor|].
  apply NoDup_cons_iff in Hnd. destruct Hnd as [Hx Ht].
  apply NoDup_app.
  - clear IH Hx. induction t as [|y t IHt]; simpl; constructor.
    + rewrite in_map_iff. intros (z & Hz & Hin). inversion Hz. subst.
      apply NoDup_cons_iff in Ht. tauto.
    + apply IHt. apply NoDup_cons_iff in Ht. tauto.
  - auto.
  - intros [a b]. rewrite in_map_iff. intros (z & Hz & _) Hin.
    inversion Hz. subst. apply combinations2_In_both in Hin. tauto.
Qed.

(** In a duplicate-free list the two members of a pair differ. *)
Lemma precedes_distinct {A : Type} (a b : A) (l : list A) :
  NoDup l -> precedes a b l -> a <> b.
Proof.
  intros Hnd (l1 & l2 & l3 & ->) ->.
  apply NoDup_app_remove_l in Hnd. apply NoDup_cons_iff in Hnd.
  apply (proj1 Hnd). apply in_or_app. right. now left.
Qed.

(** ** Reading the counted frame *)

Lemma first_values_first_row g rs :
  first_values g rs =
  match first_row g rs with
  | Some rc => Returned (snd rc, total (fst rc))
  | None => Raised IndexError
  end.
Proof.
  unfold first_values, first_row, rows_of, label.
  induction rs as [|rc t IH]; simpl; [reflexivity|].
  destruct (String.eqb (group (fst rc)) g); [reflexivity|exact IH].
Qed.

Lemma first_row_some g rs :
  In g (map label rs) -> exists rc, first_row g rs = Some rc /\ label rc = g /\ In rc rs.
Proof.
  unfold first_row. induction rs as [|rc t IH]; simpl; [tauto|].
  intros H. destruct (String.eqb (label rc) g) eqn:E.
  - exists rc. apply String.eqb_eq in E. auto.
  - destruct H as [H|H].
    + rewrite H, String.eqb_refl in E. discriminate.
    + destruct (IH H) as (rc' & H1 & H2 & H3). exists rc'. auto.
Qed.

Lemma insert_sorted_In x y l : In x (insert_sorted y l) <-> x = y \/ In x l.
Proof.
  induction l as [|z t IH]; simpl.
  - intuition.
  - destruct (String.leb y z); simpl; [|rewrite IH]; intuition.
Qed.

Lemma sorted_In x l : In x (sorted l) <-> In x l.
Proof.
  unfold sorted. induction l as [|y t IH]; simpl; [tauto|].
  rewrite insert_sorted_In, IH. intuition.
Qed.

Lemma loc_map_key (F : string -> Z * Z) g keys :
  In g keys -> loc g (map (fun k => (k, F k)) keys) = Returned (F g).
Proof.
  induction keys as [|k t IH]; simpl; [tauto|].
  intros H. destruct (String.eqb k g) eqn:E.
  - apply String.eqb_eq in E. now subst.
  - destruct H as [H|H]; [|auto].
    rewrite H, String.eqb_refl in E. discriminate.
Qed.

(** [groupby(...).sum().loc[g]] is the pair of sums over the rows of [g]. *)
Lemma loc_groupby_sum g rs :
  In g (map label rs) ->
  loc g (groupby_sum rs) = Returned (group_positive g rs, group_total g rs).
Proof.
  intros H. unfold groupby_sum.
  apply (loc_map_key (fun k => (group_positive k rs, group_total k rs))).
  apply sorted_In, unique_In. exact H.
Qed.

Lemma labels_counted df rs :
  counted df = Returned rs -> labels df = map label rs.
Proof.
  destruct df; simpl; intros H; inversion H. unfold labels. simpl.
  now rewrite map_map.
Qed.

Lemma mapM_total {A B : Type} (P : State -> Prop) (f : A -> M B) (l : list A) :
  (forall x s, In x l -> P s -> exists y s', f x s = (Returned y, s') /\ P s') ->
  forall s, P s -> exists ys s', mapM f l s = (Returned ys, s') /\ P s'.
Proof.
  induction l as [|x t IH]; intros Hf s HP; simpl.
  - now exists [], s.
  - destruct (Hf x s (or_introl eq_refl) HP) as (y & s1 & E & HP1).
    destruct (IH (fun z s0 Hz => Hf z s0 (or_intror Hz)) s1 HP1)
      as (ys & s2 & E2 & HP2).
    exists (y :: ys), s2. unfold bind. now rewrite E, E2.
Qed.

(** ** Facts about binary64 operations *)

Lemma abs_binary_round_aux s s' m e l :
  SFabs (binary_round_aux Float64.prec Float64.emax s m e l) =
  SFabs (binary_round_aux Float64.prec Float64.emax s' m e l).
Proof.
  unfold binary_round_aux.
  destruct (shr_fexp _ _ m e l) as [mrs e1].
  destruct (shr_fexp _ _ _ e1 loc_Exact) as [mrs2 e2].
  destruct (shr_m mrs2); try reflexivity.
  destruct (Z.leb e2 _); reflexivity.
Qed.

Lemma abs_binary_normalize_opp z e :
  SFabs (binary_normalize Float64.prec Float64.emax z e false) =
  SFabs (binary_normalize Float64.prec Float64.emax (- z) e false).
Proof.
  destruct z as [|m|m]; simpl; try reflexivity;
    unfold binary_round; destruct (shl_align _ _ _) as [mz ez];
    apply abs_binary_round_aux.
Qed.

Lemma sub_abs_sym x y :
  Float64.abs (Float64.sub x y) = Float64.abs (Float64.sub y x).
Proof.
  unfold Float64.abs, Float64.sub.
  destruct x as [sx|sx| |sx mx ex], y as [sy|sy| |sy my ey]; simpl;
    try reflexivity;
    try (destruct sx, sy; reflexivity).
  rewrite (Z.min_comm ey ex).
  rewrite abs_binary_normalize_opp. f_equal. f_equal. lia.
Qed.

Lemma sub_zero_r x : Float64.sub x Float64.zero = x.
Proof. destruct x as [[]|[]| |s m e]; reflexivity. Qed.

Lemma div_abs_congr x x' y :
  Float64.abs x = Float64.abs x' ->
  Float64.abs (Float64.div x y) = Float64.abs (Float64.div x' y).
Proof.
  unfold Float64.abs, Float64.div.
  destruct x as [sx|sx| |sx mx ex], x' as [sx'|sx'| |sx' mx' ex'];
    simpl; intros H; try discriminate; try reflexivity;
    destruct y as [sy|sy| |sy my ey]; simpl; try reflexivity.
  inversion H. subst.
  destruct (SFdiv_core_binary _ _ _ _ _ _) as [[mz ez] lz].
  apply abs_binary_round_aux.
Qed.

Lemma add_comm x y : Float64.add x y = Float64.add y x.
Proof.
  unfold Float64.add.
  destruct x as [sx|sx| |sx mx ex], y as [sy|sy| |sy my ey]; simpl;
    try reflexivity;
    try (destruct sx, sy; reflexivity).
  rewrite (Z.min_comm ey ex). f_equal. lia.
Qed.

(** ** Facts about int64 sums *)

Lemma wrap64_add_l a b : wrap64 (wrap64 a + b) = wrap64 (a + b).
Proof.
  unfold wrap64. f_equal.
  replace ((a + 2 ^ 63) mod 2 ^ 64 - 2 ^ 63 + b + 2 ^ 63)
    with ((a + 2 ^ 63) mod 2 ^ 64 + b) by lia.
  rewrite Z.add_mod_idemp_l by lia. f_equal. lia.
Qed.

Lemma fold_wrap64 l a :
  fold_left (fun acc x => wrap64 (acc + x)) l (wrap64 a) =
  wrap64 (a + fold_right Z.add 0 l).
Proof.
  revert a. induction l as [|x t IH]; intros a; simpl.
  - now rewrite Z.add_0_r.
  - rewrite wrap64_add_l, IH. f_equal. lia.
Qed.

(** The wrapped running sum is the wrapped exact sum. *)
Lemma sum64_wrap l : sum64 l = wrap64 (fold_right Z.add 0 l).
Proof.
  unfold sum64. change 0 with (wrap64 0) at 1. now rewrite fold_wrap64.
Qed.

Lemma sum64_Permutation l l' : Permutation l l' -> sum64 l = sum64 l'.
Proof.
  intros H. rewrite !sum64_wrap. f_equal.
  induction H; simpl; lia.
Qed.

Lemma filter_Permutation {A : Type} (f : A -> bool) l l' :
  Permutation l l' -> Permutation (filter f l) (filter f l').
Proof.
  induction 1 as [|x l l' _ IH|x y l|l l' l'' _ IH1 _ IH2]; simpl.
  - constructor.
  - destruct (f x); [now constructor|exact IH].
  - destruct (f x), (f y); try reflexivity. constructor.
  - now transitivity (filter f l').
Qed.

Lemma group_positive_Permutation g rs rs' :
  Permutation rs rs' -> group_positive g rs = group_positive g rs'.
Proof.
  intros H. unfold group_positive, rows_of.
  apply sum64_Permutation, Permutation_map, filter_Permutation, H.
Qed.

Lemma group_total_Permutation g rs rs' :
  Permutation rs rs' -> group_total g rs = group_total g rs'.
Proof.
  intros H. unfold group_total, rows_of.
  apply sum64_Permutation, Permutation_map, filter_Permutation, H.
Qed.

(** Reordering the rows leaves the set of distinct labels as it was; with
    two of them, their order is kept or swapped. *)
Lemma unique_Permutation l l' :
  Permutation l l' -> Permutation (unique l) (unique l').
Proof.
  intros H. apply NoDup_Permutation; try apply unique_NoDup.
  intros x. rewrite !unique_In. split; apply Permutation_in;
    [exact H | now symmetry].
Qed.

Lemma unique_two_Permutation l l' g0 g1 :
  Permutation l l' -> unique l = [g0; g1] ->
  unique l' = [g0; g1] \/ unique l' = [g1; g0].
Proof.
  intros H Hu. apply unique_Permutation in H. rewrite Hu in H.
  pose proof (Permutation_length H) as Hlen.
  destruct (unique l') as [|a [|b [|c t]]]; try discriminate.
  apply Permutation_length_2_inv in H. destruct H as [H|H]; inversion H; auto.
Qed.

Section Properties.

Variable norm_sf : Float64.float -> Float64.float.
Variable chi2_contingency : list (Z * Z) -> Outcome (Float64.float * Float64.float).

Local Abbreviation ztest := (proportions_ztest norm_sf).

Lemma call_ztest_spec count nobs s :
  call_ztest norm_sf count nobs s =
  (Returned (ztest count nobs), mkState (self s) (calls s ++ [ZTestCall count nobs])).
Proof. reflexivity. Qed.

(** A successful two-group test, spelled out. *)
Lemma test_two_groups_returned s name r s' :
  test_two_groups norm_sf s = (Returned (name, r), s') ->
  exists g0 g1 rs v0 v1,
    unique (labels (data (self s))) = [g0; g1] /\
    counted (data (self s)) = Returned rs /\
    loc g0 (groupby_sum rs) = Returned v0 /\
    loc g1 (groupby_sum rs) = Returned v1 /\
    name = "Proportions Z-Test" /\
    r = mkTestResult
          (fst (ztest (fst v0, fst v1) (snd v0, snd v1)))
          (snd (ztest (fst v0, fst v1) (snd v0, snd v1)))
          (label_of (snd (ztest (fst v0, fst v1) (snd v0, snd v1))) (alpha (self s)))
          None /\
    s' = mkState (self s) (calls s ++ [ZTestCall (fst v0, fst v1) (snd v0, snd v1)]).
Proof.
  unfold test_two_groups, bind, get_self, lift.
  destruct (unique (labels (data (self s)))) as [|g0 [|g1 [|g2 l]]];
    try (unfold raise; discriminate).
  destruct (counted (data (self s))) as [rs|e] eqn:Ec; [|discriminate].
  destruct (loc g0 (groupby_sum rs)) as [v0|e] eqn:E0; [|discriminate].
  destruct (loc g1 (groupby_sum rs)) as [v1|e] eqn:E1; [|discriminate].
  rewrite call_ztest_spec.
  destruct (ztest (fst v0, fst v1) (snd v0, snd v1)) as [stat p] eqn:E.
  unfold ret. intros H. inversion H. subst.
  exists g0, g1, rs, v0, v1. rewrite E. simpl. repeat split; assumption || reflexivity.
Qed.

Lemma test_two_groups_self s :
  self (snd (test_two_groups norm_sf s)) = self s.
Proof.
  unfold test_two_groups, bind, get_self, lift.
  destruct (unique (labels (data (self s)))) as [|g0 [|g1 [|g2 l]]];
    try reflexivity.
  destruct (counted (data (self s))) as [rs|e]; [|reflexivity].
  destruct (loc g0 (groupby_sum rs)) as [v0|e]; [|reflexivity].
  destruct (loc g1 (groupby_sum rs)) as [v1|e]; [|reflexivity].
  rewrite call_ztest_spec.
  destruct (ztest (fst v0, fst v1) (snd v0, snd v1)) as [stat p]. reflexivity.
Qed.

(** One pairwise comparison, spelled out. *)
Lemma post_hoc_pair_spec pr s :
  post_hoc_pair norm_sf pr s =
  match counted (data (self s)) with
  | Raised e => (Raised e, s)
  | Returned rs =>
      match first_values (fst pr) rs with
      | Raised e => (Raised e, s)
      | Returned v1 =>
          match first_values (snd pr) rs with
          | Raised e => (Raised e, s)
          | Returned v2 =>
              let zt := ztest (fst v1, fst v2) (snd v1, snd v2) in
              (Returned (mkPairwise (fst pr) (snd pr) (fst zt) (snd zt)
                                    (label_of (snd zt) (alpha (self s)))),
               mkState (self s)
                       (calls s ++ [ZTestCall (fst v1, fst v2) (snd v1, snd v2)]))
          end
      end
  end.
Proof.
  unfold post_hoc_pair, bind, get_self, lift.
  destruct (counted (data (self s))) as [rs|e]; [|reflexivity].
  destruct (first_values (fst pr) rs) as [v1|e]; [|reflexivity].
  destruct (first_values (snd pr) rs) as [v2|e]; [|reflexivity].
  rewrite call_ztest_spec.
  destruct (ztest (fst v1, fst v2) (snd v1, snd v2)) as [stat p]. reflexivity.
Qed.

Lemma post_hoc_pair_self t pr s o s' :
  self s = t -> post_hoc_pair norm_sf pr s = (o, s') -> self s' = t.
Proof.
  intros Hs. rewrite post_hoc_pair_spec.
  destruct (counted _) as [rs|e]; [|intros H; inversion H; now subst].
  destruct (first_values (fst pr) rs) as [v1|e]; [|intros H; inversion H; now subst].
  destruct (first_values (snd pr) rs) as [v2|e]; [|intros H; inversion H; now subst].
  intros H. inversion H. now subst.
Qed.

Lemma post_hoc_test_self s :
  self (snd (post_hoc_test norm_sf s)) = self s.
Proof.
  unfold post_hoc_test, bind, get_self.
  destruct (mapM _ _ s) as [o s'] eqn:E. simpl.
  eapply (mapM_invariant (fun x => self x = self s)); [| reflexivity | exact E].
  intros x s0 o0 s0' H0 H1. eapply post_hoc_pair_self; eauto.
Qed.

Lemma post_hoc_pair_returned pr s q s' :
  post_hoc_pair norm_sf pr s = (Returned q, s') -> pairwise_line norm_sf (self s) pr q.
Proof.
  rewrite post_hoc_pair_spec. unfold pairwise_line.
  destruct (counted _) as [rs|e]; [|discriminate].
  destruct (first_values (fst pr) rs) as [v1|e] eqn:E1; [|discriminate].
  destruct (first_values (snd pr) rs) as [v2|e] eqn:E2; [|discriminate].
  intros H. inversion H. subst. now exists rs, v1, v2.
Qed.

Lemma post_hoc_test_returned s pw s' :
  post_hoc_test norm_sf s = (Returned pw, s') ->
  Forall2 (pairwise_line norm_sf (self s))
          (combinations2 (unique (labels (data (self s))))) pw.
Proof.
  unfold post_hoc_test, bind, get_self. intros H.
  eapply Forall2_impl;
    [| eapply (mapM_returned (fun x => self x = self s)); [| reflexivity | exact H]].
  - intros pr q (s1 & s2 & Hs & Hq). rewrite <- Hs.
    eapply post_hoc_pair_returned; eauto.
  - intros x s0 o0 s0' H0 H1. eapply post_hoc_pair_self; eauto.
Qed.

Lemma test_multiple_groups_spec s :
  test_multiple_groups norm_sf chi2_contingency s =
  match counted (data (self s)) with
  | Raised e => (Raised e, s)
  | Returned rs =>
      let s1 := after_chi2 s (observed_table rs) in
      match chi2_contingency (observed_table rs) with
      | Raised e => (Raised e, s1)
      | Returned (chi2, p) =>
          if Float64.ltb p (alpha (self s)) then
            match post_hoc_test norm_sf s1 with
            | (Returned pw, s2) =>
                (Returned ("Chi-Square Test",
                           mkTestResult chi2 p (label_of p (alpha (self s))) (Some pw)),
                 s2)
            | (Raised e, s2) => (Raised e, s2)
            end
          else
            (Returned ("Chi-Square Test",
                       mkTestResult chi2 p (label_of p (alpha (self s))) None),
             s1)
      end
  end.
Proof.
  unfold test_multiple_groups, bind, get_self, lift.
  destruct (counted (data (self s))) as [rs|e]; [|reflexivity].
  unfold call_chi2, bind, record_call, lift. fold (after_chi2 s (observed_table rs)).
  destruct (chi2_contingency (observed_table rs)) as [[chi2 p]|e]; [|reflexivity].
  destruct (Float64.ltb p (alpha (self s))); [|reflexivity].
  destruct (post_hoc_test norm_sf _) as [[pw|e] s2]; reflexivity.
Qed.

Lemma test_multiple_groups_self s :
  self (snd (test_multiple_groups norm_sf chi2_contingency s)) = self s.
Proof.
  rewrite test_multiple_groups_spec.
  destruct (counted (data (self s))) as [rs|e]; [|reflexivity].
  destruct (chi2_contingency (observed_table rs)) as [[chi2 p]|e]; [|reflexivity].
  destruct (Float64.ltb p (alpha (self s))); [|reflexivity].
  pose proof (post_hoc_test_self (after_chi2 s (observed_table rs))) as Hs.
  cbv zeta. destruct (post_hoc_test norm_sf _) as [[pw|e] s2]; exact Hs.
Qed.

Lemma run_spec s :
  run norm_sf chi2_contingency s =
  match calculate_counts s with
  | (Raised e, s1) => (Raised e, s1)
  | (Returned _, s1) =>
      match tester norm_sf chi2_contingency s1 s1 with
      | (Raised e, s2) => (Raised e, s2)
      | (Returned tr, s2) =>
          (Returned (mkRunResult (fst tr) (snd tr)),
           mkState (mkTool (data (self s2)) (alpha (self s2))
                           (Some (mkRunResult (fst tr) (snd tr))))
                   (calls s2))
      end
  end.
Proof.
  unfold run, bind, get_self, tester.
  destruct (calculate_counts s) as [[[]|e] s1]; [|reflexivity].
  destruct (Nat.eqb _ 2).
  - destruct (test_two_groups norm_sf s1) as [[tr|e] s2]; reflexivity.
  - destruct (test_multiple_groups norm_sf chi2_contingency s1) as [[tr|e] s2];
      reflexivity.
Qed.

Lemma tester_self s :
  self (snd (tester norm_sf chi2_contingency s s)) = self s.
Proof.
  unfold tester. destruct (Nat.eqb _ 2).
  - apply test_two_groups_self.
  - apply test_multiple_groups_self.
Qed.

Lemma label_of_significant p a :
  label_of p a = "significant" <-> Float64.ltb p a = true.
Proof.
  unfold label_of. destruct (Float64.ltb p a); split; intros H;
    try reflexivity; discriminate.
Qed.

Lemma pairwise_line_threshold t prs pw :
  Forall2 (pairwise_line norm_sf t) prs pw -> Forall (threshold_law (alpha t)) pw.
Proof.
  induction 1 as [|pr q prs pw Hq _ IH]; constructor; [|exact IH].
  destruct Hq as (rs & v1 & v2 & _ & _ & _ & ->).
  unfold threshold_law. simpl. apply label_of_significant.
Qed.

Lemma test_two_groups_threshold s name r s' :
  test_two_groups norm_sf s = (Returned (name, r), s') ->
  significance r = "significant" <-> Float64.ltb (p_value r) (alpha (self s)) = true.
Proof.
  intros H. apply test_two_groups_returned in H.
  destruct H as (g0 & g1 & rs & v0 & v1 & _ & _ & _ & _ & _ & -> & _).
  simpl. apply label_of_significant.
Qed.

Lemma post_hoc_test_threshold s pw s' :
  post_hoc_test norm_sf s = (Returned pw, s') ->
  Forall (threshold_law (alpha (self s))) pw.
Proof.
  intros H. apply post_hoc_test_returned in H.
  eapply pairwise_line_threshold; eauto.
Qed.

Lemma test_multiple_groups_threshold s name r s' :
  test_multiple_groups norm_sf chi2_contingency s = (Returned (name, r), s') ->
  (significance r = "significant" <-> Float64.ltb (p_value r) (alpha (self s)) = true) /\
  (forall pw, pairwise r = Some pw -> Forall (threshold_law (alpha (self s))) pw).
Proof.
  rewrite test_multiple_groups_spec.
  destruct (counted (data (self s))) as [rs|e]; [|discriminate].
  cbv zeta.
  destruct (chi2_contingency (observed_table rs)) as [[chi2 p]|e]; [|discriminate].
  destruct (Float64.ltb p (alpha (self s))) eqn:Ep.
  - destruct (post_hoc_test norm_sf _) as [[pw|e] s2] eqn:Eh; [|discriminate].
    intros H. inversion H. subst. simpl. split.
    + apply label_of_significant.
    + intros pw' Hpw. inversion Hpw. subst.
      apply post_hoc_test_threshold in Eh. exact Eh.
  - intros H. inversion H. subst. simpl. split.
    + apply label_of_significant.
    + discriminate.
Qed.

(** C1.  Whatever the table and the significance level, a result returned by
    the two-group z-test, by the chi-square test, by the post-hoc comparison
    or by [run] carries the label ["significant"] exactly when its p-value is
    strictly below alpha; so does every line of an attached pairwise table. *)
Theorem significance_iff_p_below_alpha (s : State) :
  (forall name r s',
      test_two_groups norm_sf s = (Returned (name, r), s') ->
      significance r = "significant" <->
      Float64.ltb (p_value r) (alpha (self s)) = true) /\
  (forall name r s',
      test_multiple_groups norm_sf chi2_contingency s = (Returned (name, r), s') ->
      (significance r = "significant" <->
       Float64.ltb (p_value r) (alpha (self s)) = true) /\
      (forall pw, pairwise r = Some pw ->
                  Forall (threshold_law (alpha (self s))) pw)) /\
  (forall pw s',
      post_hoc_test norm_sf s = (Returned pw, s') ->
      Forall (threshold_law (alpha (self s))) pw) /\
  (forall r s',
      run norm_sf chi2_contingency s = (Returned r, s') ->
      (significance (run_results r) = "significant" <->
       Float64.ltb (p_value (run_results r)) (alpha (self s)) = true) /\
      (forall pw, pairwise (run_results r) = Some pw ->
                  Forall (threshold_law (alpha (self s))) pw)).
Proof.
  split; [|split; [|split]].
  - intros name r s'. apply test_two_groups_threshold.
  - intros name r s'. apply test_multiple_groups_threshold.
  - intros pw s'. apply post_hoc_test_threshold.
  - intros r s'. rewrite run_spec.
    pose proof (calculate_counts_alpha s) as Ha.
    destruct (calculate_counts s) as [[[]|e] s1]; [|discriminate].
    simpl in Ha. rewrite <- Ha. unfold tester.
    destruct (Nat.eqb _ 2).
    + destruct (test_two_groups norm_sf s1) as [[[name tr]|e] s2] eqn:E; [|discriminate].
      intros H. inversion H. subst. simpl. split.
      * eapply test_two_groups_threshold; eauto.
      * apply test_two_groups_returned in E.
        destruct E as (g0 & g1 & rs & v0 & v1 & _ & _ & _ & _ & _ & -> & _).
        discriminate.
    + destruct (test_multiple_groups norm_sf chi2_contingency s1)
        as [[[name tr]|e] s2] eqn:E; [|discriminate].
      intros H. inversion H. subst. simpl.
      eapply test_multiple_groups_threshold; eauto.
Qed.

(** C3.  When the number of distinct group labels is not two, the two-group
    tester raises the [ValueError] that points to [test_multiple_groups] and
    leaves the whole state as it found it: the table is untouched and no
    library routine has been called. *)
Theorem test_two_groups_rejects_other_cardinalities (s : State) :
  List.length (unique (labels (data (self s)))) <> 2%nat ->
  test_two_groups norm_sf s = (Raised (ValueError two_groups_message), s).
Proof.
  intros H. unfold test_two_groups, bind, get_self, raise.
  destruct (unique (labels (data (self s)))) as [|g0 [|g1 [|g2 l]]];
    try reflexivity.
  now contradiction H.
Qed.

(** C10.  Whether [run] returns or raises, the rows of the table (group
    labels, positive rates, totals; their number and their order) are those
    it was given, and so is the significance level: the only part of the
    table that is written is the derived count column. *)
Theorem run_preserves_input_columns (s : State) :
  rows (data (self (snd (run norm_sf chi2_contingency s)))) = rows (data (self s)) /\
  alpha (self (snd (run norm_sf chi2_contingency s))) = alpha (self s).
Proof.
  rewrite run_spec.
  pose proof (calculate_counts_rows s) as Hr.
  pose proof (calculate_counts_alpha s) as Ha.
  destruct (calculate_counts s) as [[[]|e] s1]; simpl in Hr, Ha; [|now split].
  pose proof (tester_self s1) as Hs.
  destruct (tester norm_sf chi2_contingency s1 s1) as [[tr|e] s2]; simpl in Hs |- *; rewrite Hs; now split.
Qed.

Lemma test_two_groups_name s tr s' :
  test_two_groups norm_sf s = (Returned tr, s') -> fst tr = "Proportions Z-Test".
Proof.
  destruct tr as [name r]. intros H. apply test_two_groups_returned in H.
  destruct H as (g0 & g1 & rs & v0 & v1 & _ & _ & _ & _ & -> & _). reflexivity.
Qed.

Lemma test_multiple_groups_name s tr s' :
  test_multiple_groups norm_sf chi2_contingency s = (Returned tr, s') ->
  fst tr = "Chi-Square Test".
Proof.
  rewrite test_multiple_groups_spec.
  destruct (counted (data (self s))) as [rs|e]; [|discriminate].
  cbv zeta.
  destruct (chi2_contingency (observed_table rs)) as [[chi2 p]|e]; [|discriminate].
  destruct (Float64.ltb p (alpha (self s))).
  - destruct (post_hoc_test norm_sf _) as [[pw|e] s2]; [|discriminate].
    intros H. inversion H. reflexivity.
  - intros H. inversion H. reflexivity.
Qed.

(** C2.  [run] first runs the Aggregator: if that raises, so does [run], in
    the state the Aggregator left; otherwise the table now carries the
    integer count column next to unchanged rows, and [run] hands it to the
    two-group tester when there are exactly two distinct labels and to the
    multi-group tester for any other number (one included), wrapping the
    outcome as the record [{test_used, results}] with the tester's name. *)
Theorem run_aggregates_then_dispatches (s : State) :
  let n := List.length (unique (labels (data (self s)))) in
  (forall e s1, calculate_counts s = (Raised e, s1) ->
     run norm_sf chi2_contingency s = (Raised e, s1)) /\
  (forall u s1, calculate_counts s = (Returned u, s1) ->
     (exists counts,
        List.length counts = List.length (rows (data (self s))) /\
        data (self s1) = FrameI (combine (rows (data (self s))) counts)) /\
     (n = 2%nat ->
        run norm_sf chi2_contingency s =
        wrap_result "Proportions Z-Test" (test_two_groups norm_sf s1)) /\
     (n <> 2%nat ->
        run norm_sf chi2_contingency s =
        wrap_result "Chi-Square Test"
                    (test_multiple_groups norm_sf chi2_contingency s1))).
Proof.
  intros n. split.
  - intros e s1 H. rewrite run_spec, H. reflexivity.
  - intros u s1 H.
    assert (Hrows : rows (data (self s1)) = rows (data (self s))).
    { pose proof (calculate_counts_rows s) as Hr. now rewrite H in Hr. }
    split; [|split].
    + rewrite calculate_counts_spec in H. cbv zeta in H.
      destruct (astype_int _) as [ints|e] eqn:E; [|discriminate].
      inversion H. subst. simpl. exists ints. split; [|reflexivity].
      apply astype_int_length in E. now rewrite E, !length_map.
    + intros Hn. rewrite run_spec, H. unfold tester, labels. rewrite Hrows.
      fold (labels (data (self s))). fold n. rewrite Hn. simpl.
      destruct (test_two_groups norm_sf s1) as [[tr|e] s2] eqn:E; [|reflexivity].
      apply test_two_groups_name in E. unfold wrap_result. now rewrite E.
    + intros Hn. rewrite run_spec, H. unfold tester, labels. rewrite Hrows.
      fold (labels (data (self s))). fold n.
      apply Nat.eqb_neq in Hn. rewrite Hn.
      destruct (test_multiple_groups norm_sf chi2_contingency s1)
        as [[tr|e] s2] eqn:E; [|reflexivity].
      apply test_multiple_groups_name in E. unfold wrap_result. now rewrite E.
Qed.

(** The post-hoc comparison always returns on a counted frame: every label
    it pairs up has a first row. *)
Lemma post_hoc_pair_total pr s rs :
  counted (data (self s)) = Returned rs ->
  In (fst pr) (map label rs) -> In (snd pr) (map label rs) ->
  exists q s', post_hoc_pair norm_sf pr s = (Returned q, s') /\ self s' = self s.
Proof.
  intros Hc H1 H2. rewrite post_hoc_pair_spec, Hc, !first_values_first_row.
  destruct (first_row_some _ _ H1) as (r1 & -> & _).
  destruct (first_row_some _ _ H2) as (r2 & -> & _).
  cbv zeta. eexists. eexists. split; reflexivity.
Qed.

Lemma post_hoc_test_total s rs :
  counted (data (self s)) = Returned rs ->
  exists pw s', post_hoc_test norm_sf s = (Returned pw, s') /\ self s' = self s.
Proof.
  intros Hc. unfold post_hoc_test, bind, get_self.
  apply (mapM_total (fun x => self x = self s)); [|reflexivity].
  intros [a b] s0 Hin Hs0.
  apply combinations2_In_both in Hin. destruct Hin as [Ha Hb].
  rewrite unique_In, (labels_counted _ _ Hc) in Ha, Hb.
  destruct (post_hoc_pair_total (a, b) s0 rs) as (q & s1 & E & Hs1);
    try assumption.
  - now rewrite Hs0.
  - exists q, s1. split; [exact E|]. now rewrite Hs1.
Qed.

(** C4.  On a counted frame for which the chi-square routine yields a
    statistic and a p-value, the multi-group tester returns, and it attaches
    a pairwise table exactly when the omnibus p-value is strictly below
    alpha.  The attached table has one line per pair of the [n] distinct
    labels, [choose2 n] lines in all, in the order [combinations2]
    enumerates the labels taken in first-appearance order: no pair occurs
    twice, a pair [(a, b)] occurs exactly when [a] first appears before [b],
    and then [a <> b].  When the test is not significant no pairwise table
    is attached and the only library call made is the chi-square test. *)
Theorem post_hoc_runs_iff_omnibus_significant (s : State) rs chi2 p :
  counted (data (self s)) = Returned rs ->
  chi2_contingency (observed_table rs) = Returned (chi2, p) ->
  let groups := unique (labels (data (self s))) in
  let tags := fun pw => map (fun q => (group1 q, group2 q)) pw in
  exists r s',
    test_multiple_groups norm_sf chi2_contingency s =
    (Returned ("Chi-Square Test", r), s') /\
    statistic r = chi2 /\ p_value r = p /\
    ((exists pw, pairwise r = Some pw) <->
     Float64.ltb p (alpha (self s)) = true) /\
    (Float64.ltb p (alpha (self s)) = false ->
     pairwise r = None /\
     calls s' = (calls s ++ [Chi2Call (observed_table rs)])%list) /\
    (forall pw, pairwise r = Some pw ->
       List.length pw = choose2 (List.length groups) /\
       tags pw = combinations2 groups /\
       NoDup (tags pw) /\
       (forall a b, In (a, b) (tags pw) <-> precedes a b groups) /\
       (forall a b, In (a, b) (tags pw) -> a <> b)).
Proof.
  intros Hc Hchi groups tags.
  rewrite test_multiple_groups_spec, Hc. cbv zeta. rewrite Hchi.
  destruct (Float64.ltb p (alpha (self s))) eqn:Ep.
  - destruct (post_hoc_test_total (after_chi2 s (observed_table rs)) rs Hc)
      as (pw & s2 & Eh & _).
    rewrite Eh. eexists. eexists. split; [reflexivity|]. simpl.
    split; [reflexivity|]. split; [reflexivity|].
    split; [|split].
    + split; [reflexivity|]. intros _. now exists pw.
    + discriminate.
    + intros pw' Hpw. inversion Hpw. subst pw'.
      apply post_hoc_test_returned in Eh. simpl in Eh.
      assert (Htags : tags pw = combinations2 groups).
      { unfold tags, groups. clear -Eh.
        induction Eh as [|pr q prs pw Hq _ IH]; [reflexivity|].
        simpl. rewrite IH. f_equal.
        destruct Hq as (rs & v1 & v2 & _ & _ & _ & ->). now destruct pr. }
      split; [|split; [|split; [|split]]].
      * rewrite <- combinations2_length, <- Htags. unfold tags.
        now rewrite length_map.
      * exact Htags.
      * rewrite Htags. apply combinations2_NoDup, unique_NoDup.
      * intros a b. rewrite Htags. apply combinations2_In.
      * intros a b. rewrite Htags, combinations2_In.
        apply precedes_distinct, unique_NoDup.
  - eexists. eexists. split; [reflexivity|]. simpl.
    split; [reflexivity|]. split; [reflexivity|].
    split; [|split].
    + split; [|discriminate]. intros [pw Hpw]. discriminate.
    + intros _. split; reflexivity.
    + discriminate.
Qed.

(** The two-group tester always returns on a counted frame with two
    distinct labels, and what it tests are the per-group sums. *)
Lemma test_two_groups_total s rs g0 g1 :
  counted (data (self s)) = Returned rs ->
  unique (labels (data (self s))) = [g0; g1] ->
  let count := (group_positive g0 rs, group_positive g1 rs) in
  let nobs := (group_total g0 rs, group_total g1 rs) in
  test_two_groups norm_sf s =
  (Returned ("Proportions Z-Test",
             mkTestResult (fst (ztest count nobs)) (snd (ztest count nobs))
                          (label_of (snd (ztest count nobs)) (alpha (self s))) None),
   mkState (self s) (calls s ++ [ZTestCall count nobs])).
Proof.
  intros Hc Hu count nobs.
  assert (H0 : In g0 (map label rs)).
  { rewrite <- (labels_counted _ _ Hc), <- unique_In, Hu. now left. }
  assert (H1 : In g1 (map label rs)).
  { rewrite <- (labels_counted _ _ Hc), <- unique_In, Hu. right. now left. }
  unfold test_two_groups, bind, get_self, lift. rewrite Hu, Hc.
  rewrite (loc_groupby_sum _ _ H0), (loc_groupby_sum _ _ H1). cbn [fst snd].
  rewrite call_ztest_spec. fold count. fold nobs.
  destruct (ztest count nobs) as [stat p]. reflexivity.
Qed.

Lemma post_hoc_pair_calls pr s o s' :
  post_hoc_pair norm_sf pr s = (o, s') ->
  exists more, calls s' = (calls s ++ more)%list.
Proof.
  rewrite post_hoc_pair_spec.
  destruct (counted _) as [rs|e];
    [|intros H; inversion H; subst; exists []; now rewrite app_nil_r].
  destruct (first_values (fst pr) rs) as [v1|e];
    [|intros H; inversion H; subst; exists []; now rewrite app_nil_r].
  destruct (first_values (snd pr) rs) as [v2|e];
    [|intros H; inversion H; subst; exists []; now rewrite app_nil_r].
  intros H. inversion H. subst. simpl. eexists. reflexivity.
Qed.

Lemma post_hoc_test_calls s :
  exists more, calls (snd (post_hoc_test norm_sf s)) = (calls s ++ more)%list.
Proof.
  unfold post_hoc_test, bind, get_self.
  destruct (mapM _ _ s) as [o s'] eqn:E. simpl.
  eapply (mapM_invariant (fun x => exists more, calls x = (calls s ++ more)%list));
    [| | exact E].
  - intros x s0 o0 s0' [m0 H0] H1. apply post_hoc_pair_calls in H1.
    destruct H1 as [m1 H1]. exists (m0 ++ m1)%list.
    now rewrite H1, H0, app_assoc.
  - exists []. now rewrite app_nil_r.
Qed.

(** C6.  On a counted frame, every line of the pairwise table is the z-test
    of the counts and totals found in the first row of each of its two
    groups, whatever further rows those groups have; the two-group tester
    tests the int64 sums of the counts and of the totals over all the rows
    of each group; and the table the multi-group tester hands to the
    chi-square routine holds, for each distinct label, the sum of the counts
    over all its rows and the sum of the totals minus that. *)
Theorem post_hoc_reads_first_row_testers_sum_rows (s : State) rs :
  counted (data (self s)) = Returned rs ->
  (exists pw s',
      post_hoc_test norm_sf s = (Returned pw, s') /\
      Forall2 (fun pr q =>
                 exists r1 r2,
                   first_row (fst pr) rs = Some r1 /\
                   first_row (snd pr) rs = Some r2 /\
                   (pw_statistic q, pw_p_value q) =
                   ztest (snd r1, snd r2) (total (fst r1), total (fst r2)))
              (combinations2 (unique (labels (data (self s))))) pw) /\
  (forall g0 g1,
      unique (labels (data (self s))) = [g0; g1] ->
      exists r s',
        test_two_groups norm_sf s = (Returned ("Proportions Z-Test", r), s') /\
        (statistic r, p_value r) =
        ztest (group_positive g0 rs, group_positive g1 rs)
              (group_total g0 rs, group_total g1 rs)) /\
  observed_table rs =
    map (fun g => (group_positive g rs,
                   wrap64 (group_total g rs - group_positive g rs)))
        (sorted (unique (map label rs))) /\
  (exists more,
      calls (snd (test_multiple_groups norm_sf chi2_contingency s)) =
      (calls s ++ Chi2Call (observed_table rs) :: more)%list).
Proof.
  intros Hc. split; [|split; [|split]].
  - destruct (post_hoc_test_total s rs Hc) as (pw & s' & E & _).
    exists pw, s'. split; [exact E|].
    apply post_hoc_test_returned in E.
    eapply Forall2_impl; [|exact E].
    intros pr q (rs' & v1 & v2 & Hc' & H1 & H2 & ->).
    rewrite Hc in Hc'. inversion Hc'. subst rs'.
    rewrite first_values_first_row in H1, H2.
    destruct (first_row (fst pr) rs) as [r1|]; [|discriminate].
    destruct (first_row (snd pr) rs) as [r2|]; [|discriminate].
    inversion H1. inversion H2. subst. exists r1, r2. cbn [pw_statistic pw_p_value fst snd].
    split; [reflexivity|]. split; [reflexivity|]. now destruct (ztest _ _).
  - intros g0 g1 Hu. rewrite (test_two_groups_total s rs g0 g1 Hc Hu).
    eexists. eexists. split; [reflexivity|]. cbn [statistic p_value].
    now destruct (ztest _ _).
  - unfold observed_table, groupby_sum. rewrite map_map. reflexivity.
  - rewrite test_multiple_groups_spec, Hc. cbv zeta.
    destruct (chi2_contingency (observed_table rs)) as [[chi2 p]|e];
      [|now exists []].
    destruct (Float64.ltb p (alpha (self s))); [|now exists []].
    destruct (post_hoc_test_calls (after_chi2 s (observed_table rs))) as [more H].
    destruct (post_hoc_test norm_sf _) as [[pw|e] s2]; simpl in H |- *;
      exists more; now rewrite H, <- app_assoc.
Qed.

(** Swapping the two samples of the z-test keeps the p-value and can only
    change the sign of the statistic. *)
Lemma proportions_ztest_swap c1 c2 n1 n2 :
  Float64.abs (fst (ztest (c1, c2) (n1, n2))) =
  Float64.abs (fst (ztest (c2, c1) (n2, n1))) /\
  snd (ztest (c1, c2) (n1, n2)) = snd (ztest (c2, c1) (n2, n1)).
Proof.
  unfold proportions_ztest. cbn [fst snd].
  rewrite (sum64_Permutation [c2; c1] [c1; c2]) by constructor.
  rewrite (sum64_Permutation [n2; n1] [n1; n2]) by constructor.
  rewrite (add_comm (Float64.div Float64.one (Float64.of_int n2))).
  rewrite !sub_zero_r.
  assert (H : forall d,
    Float64.abs (Float64.div
      (Float64.sub
         (Float64.div (Float64.mul (Float64.of_int c1) Float64.one) (Float64.of_int n1))
         (Float64.div (Float64.mul (Float64.of_int c2) Float64.one) (Float64.of_int n2)))
      d) =
    Float64.abs (Float64.div
      (Float64.sub
         (Float64.div (Float64.mul (Float64.of_int c2) Float64.one) (Float64.of_int n2))
         (Float64.div (Float64.mul (Float64.of_int c1) Float64.one) (Float64.of_int n1)))
      d)).
  { intros d. apply div_abs_congr, sub_abs_sym. }
  split; [apply H|]. now rewrite H.
Qed.

(** C7.  Take two counted frames holding the same rows in different orders,
    the same alpha, and two distinct group labels.  The two-group tester
    returns on both, with the same p-value and the same significance label;
    the two statistics have the same magnitude. *)
Theorem test_two_groups_symmetric (s s' : State) rs rs' :
  counted (data (self s)) = Returned rs ->
  counted (data (self s')) = Returned rs' ->
  Permutation rs rs' ->
  alpha (self s) = alpha (self s') ->
  List.length (unique (labels (data (self s)))) = 2%nat ->
  same_up_to_sign (fst (test_two_groups norm_sf s))
                  (fst (test_two_groups norm_sf s')).
Proof.
  intros Hc Hc' Hp Ha Hn.
  destruct (unique (labels (data (self s)))) as [|g0 [|g1 [|g2 t]]] eqn:Hu;
    try discriminate.
  assert (Hu' : unique (labels (data (self s'))) = [g0; g1] \/
                unique (labels (data (self s'))) = [g1; g0]).
  { apply (unique_two_Permutation (labels (data (self s)))); [|exact Hu].
    rewrite (labels_counted _ _ Hc), (labels_counted _ _ Hc').
    now apply Permutation_map. }
  rewrite (test_two_groups_total s rs g0 g1 Hc Hu). cbv zeta.
  destruct Hu' as [Hu'|Hu'].
  - rewrite (test_two_groups_total s' rs' g0 g1 Hc' Hu'). cbv zeta.
    rewrite <- !(group_positive_Permutation _ rs rs' Hp).
    rewrite <- !(group_total_Permutation _ rs rs' Hp).
    rewrite Ha. cbn. auto.
  - rewrite (test_two_groups_total s' rs' g1 g0 Hc' Hu'). cbv zeta.
    rewrite <- !(group_positive_Permutation _ rs rs' Hp).
    rewrite <- !(group_total_Permutation _ rs rs' Hp).
    destruct (proportions_ztest_swap (group_positive g0 rs) (group_positive g1 rs)
                (group_total g0 rs) (group_total g1 rs)) as [Hz Hpv].
    cbn [fst same_up_to_sign statistic p_value significance].
    rewrite Ha, Hpv. auto.
Qed.

(** ** A group without trials *)

Lemma sub_nan_r x : Float64.sub x Float64.nan = Float64.nan.
Proof. now destruct x. Qed.

(** With no trial and no positive outcome in one of the two samples the
    z-test divides zero by zero: the statistic is NaN and the p-value is
    whatever the survival function makes of NaN, doubled. *)
Lemma proportions_ztest_zero_total c1 c2 n1 n2 :
  (c1 = 0 /\ n1 = 0) \/ (c2 = 0 /\ n2 = 0) ->
  ztest (c1, c2) (n1, n2) =
  (Float64.nan, Float64.mul (norm_sf Float64.nan) Float64.two).
Proof.
  intros [[-> ->]|[-> ->]]; unfold proportions_ztest.
  - change (Float64.div (Float64.mul (Float64.of_int 0) Float64.one) (Float64.of_int 0))
      with Float64.nan.
    reflexivity.
  - change (Float64.div (Float64.mul (Float64.of_int 0) Float64.one) (Float64.of_int 0))
      with Float64.nan.
    rewrite sub_nan_r. reflexivity.
Qed.

(** C9 (as the code has it).  A group without trials raises nothing.  On a
    counted frame where one of the two groups has total 0 and positive count
    0, the two-group tester returns a result whose statistic is NaN and
    whose p-value is the doubled survival function at NaN; a post-hoc
    comparison whose first rows include such a row returns a line with the
    same statistic and p-value.  If the survival function maps NaN to NaN,
    the label is ["not significant"] whatever alpha is. *)
Theorem zero_total_group_returns_nan (s : State) rs :
  counted (data (self s)) = Returned rs ->
  (forall g0 g1,
      unique (labels (data (self s))) = [g0; g1] ->
      (group_positive g0 rs = 0 /\ group_total g0 rs = 0) \/
      (group_positive g1 rs = 0 /\ group_total g1 rs = 0) ->
      exists s',
        test_two_groups norm_sf s =
        (Returned ("Proportions Z-Test", nan_result norm_sf (alpha (self s))), s')) /\
  (forall pr r1 r2,
      first_row (fst pr) rs = Some r1 ->
      first_row (snd pr) rs = Some r2 ->
      (snd r1 = 0 /\ total (fst r1) = 0) \/ (snd r2 = 0 /\ total (fst r2) = 0) ->
      exists s',
        post_hoc_pair norm_sf pr s =
        (Returned (mkPairwise (fst pr) (snd pr)
                              (statistic (nan_result norm_sf (alpha (self s))))
                              (p_value (nan_result norm_sf (alpha (self s))))
                              (significance (nan_result norm_sf (alpha (self s))))),
         s')) /\
  (norm_sf Float64.nan = Float64.nan ->
   significance (nan_result norm_sf (alpha (self s))) = "not significant").
Proof.
  intros Hc. split; [|split].
  - intros g0 g1 Hu Hz.
    rewrite (test_two_groups_total s rs g0 g1 Hc Hu). cbv zeta.
    rewrite (proportions_ztest_zero_total _ _ _ _ Hz). eexists. reflexivity.
  - intros pr r1 r2 H1 H2 Hz.
    rewrite post_hoc_pair_spec, Hc, !first_values_first_row, H1, H2. cbv zeta.
    cbn [fst snd]. rewrite (proportions_ztest_zero_total _ _ _ _ Hz).
    eexists. reflexivity.
  - intros Hsf. unfold nan_result. cbn [significance]. now rewrite Hsf.
Qed.

End Properties.

(** ** The Aggregator validates nothing *)

Lemma astype_int_returned v :
  forallb Float64.is_finite v = true -> astype_int v = Returned (map cast_int64 v).
Proof. unfold astype_int. now intros ->. Qed.

Lemma combine_map_self {A B : Type} (f : A -> B) (l : list A) :
  combine l (map f l) = map (fun x => (x, f x)) l.
Proof. induction l as [|x t IH]; simpl; [reflexivity|now rewrite IH]. Qed.

Lemma forallb_finite_rint rs :
  forallb Float64.is_finite (map Float64.rint (map rate_times_total rs)) = true <->
  Forall (fun r => Float64.is_finite (Float64.rint (rate_times_total r)) = true) rs.
Proof.
  rewrite forallb_forall, Forall_forall. split.
  - intros H r Hr. apply H. now apply in_map, in_map.
  - intros H x Hx. apply in_map_iff in Hx. destruct Hx as (y & <- & Hy).
    apply in_map_iff in Hy. destruct Hy as (r & <- & Hr). now apply H.
Qed.

(** When every rounded product is finite the Aggregator returns and the
    count column holds [count_of] of every row. *)
Lemma calculate_counts_finite s :
  Forall (fun r => Float64.is_finite (Float64.rint (rate_times_total r)) = true)
         (rows (data (self s))) ->
  calculate_counts s =
  (Returned tt,
   mkState (mkTool (FrameI (map (fun r => (r, count_of r)) (rows (data (self s)))))
                   (alpha (self s)) (results (self s)))
           (calls s)).
Proof.
  intros H. rewrite calculate_counts_spec. cbv zeta.
  apply forallb_finite_rint in H. rewrite (astype_int_returned _ H).
  do 3 f_equal. rewrite !map_map.
  now rewrite <- (combine_map_self count_of (rows (data (self s)))).
Qed.

(** C5 (as the code has it).  The Aggregator checks neither the range of the
    rate nor the sign of the total.  Whenever every rounded product
    [rate / 100 * total] is finite it returns, and the count column holds
    that product converted to an integer for every row, rows with a rate
    outside [0, 100] or a negative total included.  Its only failure is the
    integer conversion refusing a NaN or an infinity. *)
Theorem calculate_counts_checks_no_range (s : State) :
  let rs := rows (data (self s)) in
  (Forall (fun r => Float64.is_finite (Float64.rint (rate_times_total r)) = true) rs ->
   calculate_counts s =
   (Returned tt,
    mkState (mkTool (FrameI (map (fun r => (r, count_of r)) rs))
                    (alpha (self s)) (results (self s)))
            (calls s))) /\
  (forall e s', calculate_counts s = (Raised e, s') ->
     e = IntCastingNaNError /\
     Exists (fun r => Float64.is_finite (Float64.rint (rate_times_total r)) = false) rs).
Proof.
  intros rs. split.
  - apply calculate_counts_finite.
  - pose proof (forallb_finite_rint rs) as Hall.
    rewrite calculate_counts_spec. fold rs. cbv zeta.
    intros e s'. unfold astype_int.
    destruct (forallb _ _) eqn:E; [discriminate|].
    intros H. inversion H. split; [reflexivity|].
    apply Exists_exists.
    destruct (Forall_Exists_dec
                (fun r => Float64.is_finite (Float64.rint (rate_times_total r)) = true)
                (fun r => bool_dec _ true) rs) as [Hf|He].
    + apply Hall in Hf. congruence.
    + apply Exists_exists in He. destruct He as (r & Hr & Hn).
      exists r. split; [exact Hr|]. now apply not_true_is_false.
Qed.

(** ** Rounding error of binary64 operations *)

Section RoundingError.

Local Open Scope Q_scope.

Lemma pow2_pos e : 0 < pow2 e.
Proof. apply Qpower_0_lt. reflexivity. Qed.

Lemma pow2_add a b : pow2 (a + b) == pow2 a * pow2 b.
Proof. apply Qpower_plus. discriminate. Qed.

Lemma pow2_Z n : (0 <= n)%Z -> pow2 n == inject_Z (2 ^ n).
Proof. intros H. unfold pow2. now rewrite Zpower_Qpower. Qed.

Lemma pow2_le a b : (a <= b)%Z -> pow2 a <= pow2 b.
Proof. intros H. apply Qpower_le_compat_l; [exact H|]. discriminate. Qed.

Lemma pow2_lt_inv a b : pow2 a < pow2 b -> (a < b)%Z.
Proof. intros H. eapply Qpower_lt_compat_l_inv; [exact H|reflexivity]. Qed.

Lemma pow2_succ a : pow2 (a + 1) == 2 * pow2 a.
Proof. rewrite pow2_add. unfold pow2 at 2. rewrite Qpower_1_r. ring. Qed.

(** The number of binary digits of a mantissa. *)
Lemma digits2_pos_bounds m :
  (2 ^ (Zpos (digits2_pos m) - 1) <= Zpos m < 2 ^ Zpos (digits2_pos m))%Z.
Proof.
  induction m as [p IH|p IH|]; simpl digits2_pos.
  - rewrite Pos2Z.inj_succ. change (Zpos p~1) with (2 * Zpos p + 1)%Z.
    replace (Z.succ (Zpos (digits2_pos p)) - 1)%Z
      with (Z.succ (Zpos (digits2_pos p) - 1)) by lia.
    rewrite !Z.pow_succ_r by lia.
    generalize dependent (2 ^ (Z.pos (digits2_pos p) - 1))%Z.
    generalize (2 ^ Z.pos (digits2_pos p))%Z. lia.
  - rewrite Pos2Z.inj_succ. change (Zpos p~0) with (2 * Zpos p)%Z.
    replace (Z.succ (Zpos (digits2_pos p)) - 1)%Z
      with (Z.succ (Zpos (digits2_pos p) - 1)) by lia.
    rewrite !Z.pow_succ_r by lia.
    generalize dependent (2 ^ (Z.pos (digits2_pos p) - 1))%Z.
    generalize (2 ^ Z.pos (digits2_pos p))%Z. lia.
  - simpl. lia.
Qed.

Lemma digits2_pos_unique m k :
  (2 ^ (k - 1) <= Zpos m < 2 ^ k)%Z -> Zpos (digits2_pos m) = k.
Proof.
  intros [Hlo Hhi]. pose proof (digits2_pos_bounds m) as [Dlo Dhi].
  assert (0 < k)%Z.
  { destruct (Z_lt_le_dec 0 k) as [|Hk]; [assumption|].
    rewrite Z.pow_neg_r in Hhi by lia || (destruct k; simpl in *; lia).
    lia. }
  assert (Zpos (digits2_pos m) - 1 < k)%Z.
  { apply (Z.pow_lt_mono_r_iff 2); lia. }
  assert (k - 1 < Zpos (digits2_pos m))%Z.
  { apply (Z.pow_lt_mono_r_iff 2); lia. }
  lia.
Qed.

Lemma bracket_bounds m l x :
  bracket m l x -> inject_Z m <= x /\ x < inject_Z m + 1.
Proof. destruct l as [|[]]; simpl; lra. Qed.

Lemma loc_of_shr_record_of_loc m l :
  loc_of_shr_record (shr_record_of_loc m l) = l /\
  shr_m (shr_record_of_loc m l) = m.
Proof. destruct l as [|[]]; split; reflexivity. Qed.

(** One step of right shift: the mantissa is halved, the dropped bit becomes
    the round bit, and the bracket follows. *)
Lemma shr_1_mantissa mrs :
  (0 <= shr_m mrs)%Z ->
  shr_m mrs = (2 * shr_m (shr_1 mrs) + (if shr_r (shr_1 mrs) then 1 else 0))%Z /\
  shr_s (shr_1 mrs) = orb (shr_r mrs) (shr_s mrs) /\
  (0 <= shr_m (shr_1 mrs))%Z.
Proof.
  destruct mrs as [m r s]. simpl shr_m at 1. intros Hm.
  destruct m as [|[p|p|]|p]; simpl; try lia; repeat split; lia.
Qed.

Lemma shr_1_bracket mrs x :
  (0 <= shr_m mrs)%Z ->
  bracket (shr_m mrs) (loc_of_shr_record mrs) x ->
  bracket (shr_m (shr_1 mrs)) (loc_of_shr_record (shr_1 mrs)) (x / 2).
Proof.
  intros Hm Hb. destruct (shr_1_mantissa mrs Hm) as (Hm1 & Hs & _).
  destruct (shr_1 mrs) as [m1 r1 s1]. cbn [shr_m shr_r shr_s] in Hm1, Hs |- *.
  assert (E : inject_Z (shr_m mrs)
              == 2 * inject_Z m1 + (if r1 then 1 else 0)).
  { rewrite Hm1, inject_Z_plus, inject_Z_mult. now destruct r1. }
  destruct mrs as [m r s]. cbn [shr_m shr_r shr_s] in *. subst s1.
  assert (D : x / 2 == x * (1 # 2)) by (unfold Qdiv; reflexivity).
  destruct r1, r, s; simpl in Hb |- *; lra.
Qed.

Lemma iter_shr_1 p mrs x :
  (0 <= shr_m mrs)%Z ->
  bracket (shr_m mrs) (loc_of_shr_record mrs) x ->
  let mrs' := iter_pos shr_1 p mrs in
  bracket (shr_m mrs') (loc_of_shr_record mrs') (x / pow2 (Zpos p)) /\
  shr_m mrs' = (shr_m mrs / 2 ^ Zpos p)%Z /\
  (0 <= shr_m mrs')%Z.
Proof.
  assert (Step : forall mrs x,
    (0 <= shr_m mrs)%Z ->
    bracket (shr_m mrs) (loc_of_shr_record mrs) x ->
    bracket (shr_m (shr_1 mrs)) (loc_of_shr_record (shr_1 mrs)) (x / pow2 1) /\
    shr_m (shr_1 mrs) = (shr_m mrs / 2 ^ 1)%Z /\
    (0 <= shr_m (shr_1 mrs))%Z).
  { intros m0 x0 H0 B0. split; [|split].
    - apply shr_1_bracket; assumption.
    - destruct (shr_1_mantissa m0 H0) as (E & _ & _).
      change (2 ^ 1)%Z with 2%Z.
      destruct (shr_r (shr_1 m0)); apply Z.div_unique with (r := (shr_m m0 - 2 * shr_m (shr_1 m0))%Z); lia.
    - apply shr_1_mantissa. assumption. }
  assert (Comp : forall a b mrs0 mrs1 mrs2 x0,
    (0 < a)%Z -> (0 < b)%Z ->
    (bracket (shr_m mrs1) (loc_of_shr_record mrs1) (x0 / pow2 a) /\
     shr_m mrs1 = (shr_m mrs0 / 2 ^ a)%Z /\ (0 <= shr_m mrs1)%Z) ->
    (bracket (shr_m mrs2) (loc_of_shr_record mrs2) (x0 / pow2 a / pow2 b) /\
     shr_m mrs2 = (shr_m mrs1 / 2 ^ b)%Z /\ (0 <= shr_m mrs2)%Z) ->
    bracket (shr_m mrs2) (loc_of_shr_record mrs2) (x0 / pow2 (a + b)) /\
    shr_m mrs2 = (shr_m mrs0 / 2 ^ (a + b))%Z /\ (0 <= shr_m mrs2)%Z).
  { intros a b m0 m1 m2 x0 Ha Hb (B1 & E1 & P1) (B2 & E2 & P2).
    split; [|split; [|exact P2]].
    - assert (Q : x0 / pow2 (a + b) == x0 / pow2 a / pow2 b).
      { rewrite pow2_add. field. split; apply Qnot_eq_sym, Qlt_not_eq, pow2_pos. }
      destruct (loc_of_shr_record m2) as [|[]]; simpl in B2 |- *;
        rewrite Q; exact B2.
    - rewrite E2, E1, Z.pow_add_r, Z.div_div by lia. reflexivity. }
  revert mrs x. induction p as [p IH|p IH|]; intros mrs x Hm Hb; simpl iter_pos.
  - destruct (Step mrs x Hm Hb) as (B1 & E1 & P1).
    destruct (IH _ _ P1 B1) as (B2 & E2 & P2).
    pose proof (Comp 1%Z (Zpos p) _ _ _ x ltac:(lia) ltac:(lia)
                  (conj B1 (conj E1 P1)) (conj B2 (conj E2 P2))) as C12.
    destruct (IH _ _ P2 (proj1 C12)) as (B3 & E3 & P3).
    pose proof (Comp (1 + Zpos p)%Z (Zpos p) _ _ _ x ltac:(lia) ltac:(lia)
                  C12 (conj B3 (conj E3 P3))) as C.
    replace (Zpos p~1) with (1 + Zpos p + Zpos p)%Z by lia. exact C.
  - destruct (IH _ _ Hm Hb) as (B2 & E2 & P2).
    destruct (IH _ _ P2 B2) as (B3 & E3 & P3).
    pose proof (Comp (Zpos p) (Zpos p) _ _ _ x ltac:(lia) ltac:(lia)
                  (conj B2 (conj E2 P2)) (conj B3 (conj E3 P3))) as C.
    replace (Zpos p~0) with (Zpos p + Zpos p)%Z by lia. exact C.
  - apply Step; assumption.
Qed.

Lemma fexp_normal d :
  (-1021 <= d)%Z -> fexp Float64.prec Float64.emax d = (d - 53)%Z.
Proof. unfold fexp, emin, Float64.prec, Float64.emax. lia. Qed.

Lemma round_nearest_even_spec m l y :
  bracket m l y ->
  (round_nearest_even m l = m \/ round_nearest_even m l = (m + 1)%Z) /\
  inject_Z (round_nearest_even m l) - (1 # 2) <= y /\
  y <= inject_Z (round_nearest_even m l) + (1 # 2).
Proof.
  intros Hb.
  assert (E : inject_Z (m + 1) == inject_Z m + 1)
    by (rewrite inject_Z_plus; reflexivity).
  destruct l as [|[]]; simpl in Hb |- *.
  - split; [now left|]. lra.
  - destruct (Z.even m).
    + split; [now left|]. lra.
    + split; [now right|]. rewrite E. lra.
  - split; [now left|]. lra.
  - split; [now right|]. rewrite E. lra.
Qed.

Lemma shr_bracket mp l X e n :
  bracket (Zpos mp) l X -> (0 <= n)%Z ->
  let mrs := fst (shr (shr_record_of_loc (Zpos mp) l) e n) in
  snd (shr (shr_record_of_loc (Zpos mp) l) e n) = (e + n)%Z /\
  bracket (shr_m mrs) (loc_of_shr_record mrs) (X / pow2 n) /\
  shr_m mrs = (Zpos mp / 2 ^ n)%Z.
Proof.
  intros Hb Hn. destruct (loc_of_shr_record_of_loc (Zpos mp) l) as [El Em].
  destruct n as [|p|p]; [| |lia]; cbn [shr fst snd].
  - rewrite El, Em. split; [lia|]. split.
    + assert (Q : X / pow2 0 == X) by (unfold pow2; simpl; field).
      destruct l as [|[]]; simpl in Hb |- *; rewrite Q; exact Hb.
    + now rewrite Z.pow_0_r, Z.div_1_r.
  - split; [reflexivity|].
    destruct (iter_shr_1 p (shr_record_of_loc (Zpos mp) l) X) as (B & E & _).
    + rewrite Em. lia.
    + rewrite El, Em. exact Hb.
    + rewrite Em in E. split; assumption.
Qed.

(** Rounding a bracketed value whose mantissa has at least 53 digits, in
    the range of normal numbers: the result is a normal binary64 number
    within half a unit in the last place of the exact value. *)
Lemma binary_round_aux_normal s mp e l X :
  bracket (Zpos mp) l X ->
  let d := Zpos (digits2_pos mp) in
  (53 <= d)%Z -> (-1021 <= d + e)%Z -> (d + e <= 1023)%Z ->
  exists m' e',
    binary_round_aux Float64.prec Float64.emax s (Zpos mp) e l = S754_finite s m' e' /\
    (2 ^ 52 <= Zpos m' < 2 ^ 53)%Z /\
    (d + e - 53 <= e' <= d + e - 52)%Z /\
    inject_Z (Zpos m') * pow2 e' - (1 # 2) * pow2 (d + e - 53) <= X * pow2 e /\
    X * pow2 e <= inject_Z (Zpos m') * pow2 e' + (1 # 2) * pow2 (d + e - 53).
Proof.
  intros Hb d Hd Hlo Hhi.
  pose proof (digits2_pos_bounds mp) as [Dlo Dhi]. fold d in Dlo, Dhi.
  unfold binary_round_aux, shr_fexp. cbn [Zdigits2]. fold d.
  rewrite (fexp_normal (d + e)) by lia.
  replace (d + e - 53 - e)%Z with (d - 53)%Z by lia.
  destruct (shr_bracket mp l X e (d - 53) Hb ltac:(lia)) as (Ee & B1 & M1).
  destruct (shr (shr_record_of_loc (Zpos mp) l) e (d - 53)) as [mrs1 e1].
  cbn [fst snd] in Ee, B1, M1. subst e1.
  set (M := shr_m mrs1) in *.
  assert (HM : (2 ^ 52 <= M < 2 ^ 53)%Z).
  { rewrite M1. split.
    - apply Z.div_le_lower_bound; [apply Z.pow_pos_nonneg; lia|].
      rewrite <- Z.pow_add_r by lia. replace (d - 53 + 52)%Z with (d - 1)%Z by lia.
      exact Dlo.
    - apply Z.div_lt_upper_bound; [apply Z.pow_pos_nonneg; lia|].
      rewrite <- Z.pow_add_r by lia. replace (d - 53 + 53)%Z with d by lia.
      exact Dhi. }
  destruct (round_nearest_even_spec M _ _ B1) as (Hr & Rlo & Rhi).
  set (m1 := round_nearest_even M (loc_of_shr_record mrs1)) in *.
  assert (Hm1 : (2 ^ 52 <= m1 <= 2 ^ 53)%Z) by (destruct Hr; lia).
  (* the exact value in units of the new last place *)
  assert (HX : X * pow2 e == X / pow2 (d - 53) * pow2 (d + e - 53)).
  { replace (d + e - 53)%Z with (e + (d - 53))%Z by lia.
    rewrite pow2_add. field. apply Qnot_eq_sym, Qlt_not_eq, pow2_pos. }
  pose proof (pow2_pos (d + e - 53)) as Hp.
  destruct (Z.eq_dec m1 (2 ^ 53)) as [Hc|Hc].
  - (* the rounded mantissa has one digit more *)
    rewrite Hc. change (Zdigits2 (2 ^ 53)) with 54%Z.
    rewrite (fexp_normal (54 + (e + (d - 53)))) by lia.
    replace (54 + (e + (d - 53)) - 53 - (e + (d - 53)))%Z with 1%Z by lia.
    cbn [shr shr_record_of_loc iter_pos shr_1 shr_m].
    change (2 ^ 53)%Z with (Zpos (2 ^ 53)). cbn [shr_1 shr_m].
    exists (2 ^ 52)%positive, (e + (d - 53) + 1)%Z.
    replace (e + (d - 53) + 1 <=? Float64.emax - Float64.prec)%Z with true
      by (symmetry; apply Z.leb_le; unfold Float64.emax, Float64.prec; lia).
    split; [reflexivity|]. split; [lia|]. split; [lia|].
    assert (V : inject_Z (Zpos (2 ^ 52)) * pow2 (e + (d - 53) + 1)
                == inject_Z m1 * pow2 (d + e - 53)).
    { rewrite Hc. replace (e + (d - 53) + 1)%Z with (d + e - 53 + 1)%Z by lia.
      rewrite pow2_succ. change (inject_Z (Zpos (2 ^ 52))) with (inject_Z (2 ^ 52)).
      change (inject_Z (2 ^ 53)) with (2 * inject_Z (2 ^ 52)). ring. }
    rewrite V, HX. split; nra.
  - assert (Hd1 : Zdigits2 m1 = 53%Z).
    { destruct m1 as [|q|q]; try lia. cbn [Zdigits2].
      apply digits2_pos_unique. lia. }
    rewrite Hd1. rewrite (fexp_normal (53 + (e + (d - 53)))) by lia.
    replace (53 + (e + (d - 53)) - 53 - (e + (d - 53)))%Z with 0%Z by lia.
    cbn [shr shr_record_of_loc shr_m].
    destruct m1 as [|q|q]; try lia.
    exists q, (e + (d - 53))%Z.
    replace (e + (d - 53) <=? Float64.emax - Float64.prec)%Z with true
      by (symmetry; apply Z.leb_le; unfold Float64.emax, Float64.prec; lia).
    split; [reflexivity|]. split; [lia|]. split; [lia|].
    replace (e + (d - 53))%Z with (d + e - 53)%Z by lia.
    rewrite HX. split; nra.
Qed.

(** A 53-digit mantissa in the normal range is left as it is. *)
Lemma binary_round_aux_exact s mp e :
  Zpos (digits2_pos mp) = 53%Z -> (-1074 <= e <= 971)%Z ->
  binary_round_aux Float64.prec Float64.emax s (Zpos mp) e loc_Exact =
  S754_finite s mp e.
Proof.
  intros Hd He. unfold binary_round_aux, shr_fexp. cbn [Zdigits2].
  rewrite Hd, (fexp_normal (53 + e)) by lia.
  replace (53 + e - 53 - e)%Z with 0%Z by lia.
  cbn [shr shr_record_of_loc shr_m loc_of_shr_record round_nearest_even Zdigits2].
  rewrite Hd, (fexp_normal (53 + e)) by lia.
  replace (53 + e - 53 - e)%Z with 0%Z by lia.
  cbn [shr shr_record_of_loc shr_m].
  replace (e <=? Float64.emax - Float64.prec)%Z with true
    by (symmetry; apply Z.leb_le; unfold Float64.emax, Float64.prec; lia).
  reflexivity.
Qed.

Lemma shift_pos_value p k :
  Zpos (Pos.iter xO p k) = (Zpos p * 2 ^ Zpos k)%Z.
Proof.
  change (Pos.iter xO p k) with (Zpower.shift_pos k p).
  rewrite Zpower.shift_pos_correct. change (Z.pow_pos 2 k) with (2 ^ Zpos k)%Z.
  lia.
Qed.

(** Integers below [2^53] convert exactly. *)
Lemma of_int_exact n :
  (0 < n < 2 ^ 53)%Z ->
  normal (Float64.of_int n) /\ F2Q (Float64.of_int n) == inject_Z n.
Proof.
  intros Hn. destruct n as [|p|p]; try lia.
  unfold Float64.of_int, binary_normalize, binary_round.
  pose proof (digits2_pos_bounds p) as [Dlo Dhi].
  set (d := Zpos (digits2_pos p)) in *.
  assert (Hd : (1 <= d <= 53)%Z).
  { split; [unfold d; lia|].
    destruct (Z_le_gt_dec d 53) as [|Hgt]; [assumption|].
    assert (2 ^ 53 <= 2 ^ (d - 1))%Z by (apply Z.pow_le_mono_r; lia). lia. }
  rewrite Z.add_0_r, (fexp_normal d) by lia.
  unfold shl_align. rewrite Z.sub_0_r.
  destruct (d - 53)%Z as [|k|k] eqn:Ek; try lia.
  - rewrite binary_round_aux_exact by (fold d; lia).
    split.
    + cbn [normal]. repeat split; try lia. replace 52%Z with (d - 1)%Z by lia. exact Dlo.
    + unfold F2Q, pow2. simpl. ring.
  - assert (Hk : Zpos k = (53 - d)%Z) by lia.
    assert (Hv : Zpos (Pos.iter xO p k) = (Zpos p * 2 ^ (53 - d))%Z)
      by (rewrite shift_pos_value, Hk; reflexivity).
    assert (Hb : (2 ^ 52 <= Zpos (Pos.iter xO p k) < 2 ^ 53)%Z).
    { rewrite Hv.
      assert (E52 : (2 ^ 52 = 2 ^ (d - 1) * 2 ^ (53 - d))%Z).
      { rewrite <- Z.pow_add_r by lia. f_equal. lia. }
      assert (E53 : (2 ^ 53 = 2 ^ d * 2 ^ (53 - d))%Z).
      { rewrite <- Z.pow_add_r by lia. f_equal. lia. }
      rewrite E52, E53.
      assert (0 < 2 ^ (53 - d))%Z by (apply Z.pow_pos_nonneg; lia).
      generalize dependent (2 ^ (53 - d))%Z.
      generalize dependent (2 ^ (d - 1))%Z. generalize dependent (2 ^ d)%Z.
      intros. nia. }
    rewrite binary_round_aux_exact;
      [| apply digits2_pos_unique; simpl; exact Hb | lia].
    split.
    + cbn [normal]. repeat split; lia.
    + unfold F2Q. rewrite Hv, inject_Z_mult.
      replace (Zneg k) with (- (53 - d))%Z by lia.
      rewrite <- pow2_Z by lia.
      assert (P : pow2 (53 - d) * pow2 (- (53 - d)) == 1).
      { rewrite <- pow2_add. replace (53 - d + - (53 - d))%Z with 0%Z by lia.
        reflexivity. }
      cbv iota.
      transitivity (inject_Z (Zpos p) * (pow2 (53 - d) * pow2 (- (53 - d))));
        [ring|]. rewrite P. ring.
Qed.

Lemma binary_round_aux_relative s mp e l X :
  bracket (Zpos mp) l X ->
  let d := Zpos (digits2_pos mp) in
  (53 <= d)%Z -> (-1021 <= d + e)%Z -> (d + e <= 1023)%Z ->
  exists z,
    binary_round_aux Float64.prec Float64.emax s (Zpos mp) e l = z /\
    (exists m' e', z = S754_finite s m' e' /\
                   (2 ^ 52 <= Zpos m' < 2 ^ 53)%Z /\ (-1074 <= e' <= 971)%Z /\
                   inject_Z (Zpos m') * pow2 e' - u64 * (X * pow2 e) <= X * pow2 e /\
                   X * pow2 e <= inject_Z (Zpos m') * pow2 e' + u64 * (X * pow2 e)).
Proof.
  intros Hb d Hd Hlo Hhi.
  destruct (binary_round_aux_normal s mp e l X Hb Hd Hlo Hhi)
    as (m' & e' & E & Hm & He & Elo & Ehi).
  fold d in He, Elo, Ehi.
  eexists. split; [reflexivity|]. exists m', e'.
  split; [exact E|]. split; [exact Hm|]. split; [lia|].
  pose proof (digits2_pos_bounds mp) as [Dlo _]. fold d in Dlo.
  pose proof (bracket_bounds _ _ _ Hb) as [Xlo _].
  assert (P : pow2 (d + e - 53) == pow2 (d - 1) * pow2 e * (1 # 4503599627370496)).
  { replace (d + e - 53)%Z with ((d - 1) + e + (-52))%Z by lia.
    rewrite !pow2_add. reflexivity. }
  assert (A : pow2 (d - 1) <= X).
  { rewrite pow2_Z by lia. apply Qle_trans with (inject_Z (Zpos mp)); [|exact Xlo].
    rewrite <- Zle_Qle. exact Dlo. }
  pose proof (pow2_pos e) as Pe. pose proof (pow2_pos (d - 1)) as Pd.
  assert (AE : pow2 (d - 1) * pow2 e <= X * pow2 e).
  { apply Qmult_le_compat_r; [exact A|]. lra. }
  rewrite P in Elo, Ehi. unfold u64.
  set (V := X * pow2 e) in *. set (W := pow2 (d - 1) * pow2 e) in *.
  set (R := inject_Z (Zpos m') * pow2 e') in *.
  split; lra.
Qed.

Lemma new_location_bracket q r m X :
  (0 < m)%Z -> (0 <= r < m)%Z ->
  X * inject_Z m == inject_Z (q * m + r) ->
  bracket q (new_location m r) X.
Proof.
  intros Hm Hr HX.
  assert (Pm : 0 < inject_Z m) by (change 0 with (inject_Z 0); now rewrite <- Zlt_Qlt).
  rewrite inject_Z_plus, inject_Z_mult in HX.
  assert (R0 : 0 <= inject_Z r) by (change 0 with (inject_Z 0); rewrite <- Zle_Qle; lia).
  assert (Key : forall c, (c = Lt -> 2 * r < m)%Z -> (c = Eq -> 2 * r = m)%Z ->
                          (c = Gt -> m < 2 * r)%Z -> (0 < r)%Z ->
                          bracket q (loc_Inexact c) X).
  { intros c HLt HEq HGt Hpos.
    assert (Rp : 0 < inject_Z r) by (change 0 with (inject_Z 0); now rewrite <- Zlt_Qlt).
    assert (Rm : inject_Z r < inject_Z m) by (rewrite <- Zlt_Qlt; lia).
    destruct c; simpl.
    - assert (E : 2 * inject_Z r == inject_Z m).
      { rewrite <- (HEq eq_refl), inject_Z_mult. reflexivity. }
      nra.
    - assert (E : 2 * inject_Z r < inject_Z m).
      { change 2 with (inject_Z 2). rewrite <- inject_Z_mult, <- Zlt_Qlt. auto. }
      split; nra.
    - assert (E : inject_Z m < 2 * inject_Z r).
      { change 2 with (inject_Z 2). rewrite <- inject_Z_mult, <- Zlt_Qlt. auto. }
      split; nra. }
  unfold new_location, new_location_even, new_location_odd.
  destruct (Z.even m) eqn:Ev.
  - destruct (Z.eqb_spec r 0) as [->|Hr0].
    + simpl. change (inject_Z 0) with 0 in HX. nra.
    + apply Key; try lia.
      * intros H. exact (proj1 (Z.compare_lt_iff _ _) H).
      * intros H. exact (proj1 (Z.compare_eq_iff _ _) H).
      * intros H. exact (proj1 (Z.compare_gt_iff _ _) H).
  - destruct (Z.eqb_spec r 0) as [->|Hr0].
    + simpl. change (inject_Z 0) with 0 in HX. nra.
    + assert (Hodd : Z.odd m = true) by (rewrite <- Z.negb_even, Ev; reflexivity).
      apply Z.odd_spec in Hodd. destruct Hodd as [k Hk].
      destruct (Z.compare (2 * r + 1) m) eqn:Ec.
      * apply (proj1 (Z.compare_eq_iff _ _)) in Ec. apply Key; try lia; discriminate.
      * apply (proj1 (Z.compare_lt_iff _ _)) in Ec. apply Key; try lia; discriminate.
      * apply (proj1 (Z.compare_gt_iff _ _)) in Ec. apply Key; try lia; try discriminate.
Qed.

Lemma product_digits mx my :
  (2 ^ 52 <= Zpos mx < 2 ^ 53)%Z -> (2 ^ 52 <= Zpos my < 2 ^ 53)%Z ->
  (105 <= Zpos (digits2_pos (mx * my)) <= 106)%Z.
Proof.
  intros Hx Hy. pose proof (digits2_pos_bounds (mx * my)) as [Dlo Dhi].
  set (d := Zpos (digits2_pos (mx * my))) in *.
  assert (HM : (2 ^ 104 <= Zpos (mx * my) < 2 ^ 106)%Z).
  { rewrite Pos2Z.inj_mul.
    change (2 ^ 104)%Z with (2 ^ 52 * 2 ^ 52)%Z.
    change (2 ^ 106)%Z with (2 ^ 53 * 2 ^ 53)%Z. nia. }
  split.
  - destruct (Z_lt_le_dec d 105) as [Hlt|]; [|assumption].
    assert (2 ^ d <= 2 ^ 104)%Z by (apply Z.pow_le_mono_r; lia). lia.
  - destruct (Z_lt_le_dec 106 d) as [Hlt|]; [|assumption].
    assert (2 ^ 106 <= 2 ^ (d - 1))%Z by (apply Z.pow_le_mono_r; lia). lia.
Qed.

(** Multiplication of two positive normal numbers whose product stays in
    the normal range: relative error at most [u64]. *)
Lemma mul_spec x y :
  normal x -> normal y -> (-1126 <= expo x + expo y <= 917)%Z ->
  normal (Float64.mul x y) /\
  F2Q (Float64.mul x y) - u64 * (F2Q x * F2Q y) <= F2Q x * F2Q y /\
  F2Q x * F2Q y <= F2Q (Float64.mul x y) + u64 * (F2Q x * F2Q y).
Proof.
  destruct x as [| | |[] mx ex]; try contradiction.
  destruct y as [| | |[] my ey]; try contradiction.
  cbn [normal expo]. intros [Hx _] [Hy _] He.
  pose proof (product_digits mx my Hx Hy) as Hd.
  unfold Float64.mul, SFmul. cbn [xorb].
  destruct (binary_round_aux_relative false (mx * my) (ex + ey) loc_Exact
              (inject_Z (Zpos (mx * my)))) as (z & -> & m' & e' & -> & Hm & He' & Elo & Ehi);
    try lia; [reflexivity|].
  cbn [normal F2Q]. split; [split; assumption|].
  assert (V : inject_Z (Zpos (mx * my)) * pow2 (ex + ey)
              == 1 * inject_Z (Zpos mx) * pow2 ex * (1 * inject_Z (Zpos my) * pow2 ey)).
  { rewrite Pos2Z.inj_mul, inject_Z_mult, pow2_add. ring. }
  rewrite V in Elo, Ehi. split; lra.
Qed.

Lemma normal_digits m :
  (2 ^ 52 <= Zpos m < 2 ^ 53)%Z -> Zpos (digits2_pos m) = 53%Z.
Proof. intros H. apply digits2_pos_unique. exact H. Qed.

Lemma F2Q_normal_pos x : normal x -> 0 < F2Q x.
Proof.
  destruct x as [| | |[] m e]; try contradiction. intros _. cbn [F2Q].
  pose proof (pow2_pos e).
  assert (0 < inject_Z (Zpos m)) by (change 0 with (inject_Z 0); now rewrite <- Zlt_Qlt).
  nra.
Qed.

(** Division of two positive normal numbers whose quotient stays in the
    normal range: relative error at most [u64]. *)
Lemma div_spec x y :
  normal x -> normal y -> (-1021 <= expo x - expo y <= 1022)%Z ->
  normal (Float64.div x y) /\
  F2Q (Float64.div x y) - u64 * (F2Q x / F2Q y) <= F2Q x / F2Q y /\
  F2Q x / F2Q y <= F2Q (Float64.div x y) + u64 * (F2Q x / F2Q y).
Proof.
  intros Nx Ny. pose proof (F2Q_normal_pos y Ny) as Py.
  destruct x as [| | |[] mx ex]; try contradiction.
  destruct y as [| | |[] my ey]; try contradiction.
  cbn [normal expo] in *. destruct Nx as [Hx _]. destruct Ny as [Hy _]. intros He.
  unfold Float64.div, SFdiv, SFdiv_core_binary. cbn [Zdigits2 xorb].
  rewrite (normal_digits mx Hx), (normal_digits my Hy).
  replace (53 + ex - (53 + ey))%Z with (ex - ey)%Z by lia.
  rewrite (fexp_normal (ex - ey)) by lia.
  replace (Z.min (ex - ey - 53) (ex - ey)) with (ex - ey - 53)%Z by lia.
  replace (ex - ey - (ex - ey - 53))%Z with 53%Z by lia.
  cbv iota. rewrite Z.shiftl_mul_pow2 by lia.
  pose proof (Z_div_mod (Zpos mx * 2 ^ 53) (Zpos my) ltac:(lia)) as Hdiv.
  destruct (Z.div_eucl (Zpos mx * 2 ^ 53) (Zpos my)) as [q r].
  destruct Hdiv as [Hqr Hr].
  assert (Hq : (2 ^ 52 <= q < 2 ^ 54)%Z).
  { change (2 ^ 54)%Z with (2 * 2 ^ 53)%Z. change (2 ^ 53)%Z with (2 * 2 ^ 52)%Z in *.
    generalize dependent (2 ^ 52)%Z. intros. nia. }
  destruct q as [|qp|qp]; try lia.
  assert (Hd : (53 <= Zpos (digits2_pos qp) <= 54)%Z).
  { pose proof (digits2_pos_bounds qp) as [Dlo Dhi].
    set (d := Zpos (digits2_pos qp)) in *. split.
    - destruct (Z_lt_le_dec d 53) as [Hlt|]; [|assumption].
      assert (2 ^ d <= 2 ^ 52)%Z by (apply Z.pow_le_mono_r; lia). lia.
    - destruct (Z_lt_le_dec 54 d) as [Hlt|]; [|assumption].
      assert (2 ^ 54 <= 2 ^ (d - 1))%Z by (apply Z.pow_le_mono_r; lia). lia. }
  set (X := inject_Z (Zpos mx * 2 ^ 53) / inject_Z (Zpos my)).
  assert (Pm : 0 < inject_Z (Zpos my))
    by (change 0 with (inject_Z 0); now rewrite <- Zlt_Qlt).
  assert (HX : X * inject_Z (Zpos my) == inject_Z (Zpos qp * Zpos my + r)).
  { unfold X. rewrite Hqr, (Z.mul_comm (Zpos my)). field. lra. }
  pose proof (new_location_bracket (Zpos qp) r (Zpos my) X ltac:(lia) Hr HX) as Hb.
  destruct (binary_round_aux_relative false qp (ex - ey - 53) _ X Hb)
    as (z & -> & m' & e' & -> & Hm & He' & Elo & Ehi); try lia.
  cbn [normal F2Q]. split; [split; assumption|].
  assert (V : X * pow2 (ex - ey - 53)
              == 1 * inject_Z (Zpos mx) * pow2 ex / (1 * inject_Z (Zpos my) * pow2 ey)).
  { unfold X. rewrite inject_Z_mult.
    replace (ex - ey - 53)%Z with (ex + (- ey) + (-53))%Z by lia.
    rewrite !pow2_add.
    assert (Pe : pow2 ey * pow2 (- ey) == 1).
    { rewrite <- pow2_add. replace (ey + - ey)%Z with 0%Z by lia. reflexivity. }
    assert (P53 : inject_Z (2 ^ 53) * pow2 (-53) == 1) by reflexivity.
    pose proof (pow2_pos ey) as Pey.
    apply (Qmult_inj_r _ _ (inject_Z (Zpos my) * pow2 ey)); [nra|].
    transitivity (inject_Z (Zpos mx) * pow2 ex * (inject_Z (2 ^ 53) * pow2 (-53))
                  * (pow2 ey * pow2 (- ey))).
    - field. lra.
    - rewrite P53, Pe. field. split; lra. }
  rewrite V in Elo, Ehi. split; lra.
Qed.

(** From bounds on the value of a normal number to bounds on its exponent. *)
Lemma normal_exponent x lo hi :
  normal x -> pow2 lo <= F2Q x -> F2Q x < pow2 hi ->
  (lo - 53 < expo x < hi - 52)%Z.
Proof.
  destruct x as [| | |[] m e]; try contradiction.
  cbn [normal F2Q expo]. intros [[Hlo Hhi] _] Vlo Vhi.
  pose proof (pow2_pos e) as Pe.
  assert (M1 : inject_Z (2 ^ 52) <= inject_Z (Zpos m)) by (now rewrite <- Zle_Qle).
  assert (M2 : inject_Z (Zpos m) < inject_Z (2 ^ 53)) by (now rewrite <- Zlt_Qlt).
  rewrite <- pow2_Z in M1, M2 by lia.
  split.
  - assert (H : pow2 lo < pow2 (e + 53)).
    { rewrite pow2_add. apply Qle_lt_trans with (1 * inject_Z (Zpos m) * pow2 e);
        [exact Vlo|]. nra. }
    apply pow2_lt_inv in H. lia.
  - assert (H : pow2 (e + 52) < pow2 hi).
    { rewrite pow2_add. apply Qle_lt_trans with (1 * inject_Z (Zpos m) * pow2 e);
        [|exact Vhi]. nra. }
    apply pow2_lt_inv in H. lia.
Qed.

(** A valid binary64 number that is not below the least normal number has
    a 53-digit mantissa. *)
Lemma valid_normal m e :
  valid_binary Float64.prec Float64.emax (S754_finite false m e) = true ->
  pow2 (-1022) <= inject_Z (Zpos m) * pow2 e ->
  normal (S754_finite false m e).
Proof.
  cbn [valid_binary normal]. unfold bounded, canonical_mantissa.
  intros Hv Hlo. apply andb_prop in Hv. destruct Hv as [Hc Hb].
  apply Z.eqb_eq in Hc. apply Z.leb_le in Hb.
  unfold fexp, emin, Float64.prec, Float64.emax in Hc, Hb.
  pose proof (digits2_pos_bounds m) as [Dlo Dhi].
  set (d := Zpos (digits2_pos m)) in *.
  assert (Hd : d = 53%Z).
  { destruct (Z.eq_dec d 53) as [|Hne]; [assumption|exfalso].
    assert (He : e = (-1074)%Z) by lia.
    assert (Hd : (d <= 52)%Z) by lia.
    assert (Hm : (Zpos m < 2 ^ 52)%Z).
    { apply Z.lt_le_trans with (2 ^ d)%Z; [exact Dhi|].
      apply Z.pow_le_mono_r; lia. }
    subst e.
    assert (M : inject_Z (Zpos m) < inject_Z (2 ^ 52)) by (now rewrite <- Zlt_Qlt).
    rewrite <- pow2_Z in M by lia.
    assert (P : pow2 (-1022) == pow2 52 * pow2 (-1074)).
    { rewrite <- pow2_add. reflexivity. }
    pose proof (pow2_pos (-1074)). nra. }
  rewrite Hd in Dlo, Dhi. change (53 - 1)%Z with 52%Z in Dlo.
  split; [split; assumption|]. lia.
Qed.

(** Rounding to the nearest integer of a mantissa within a quarter of an
    integer [p]. *)
Lemma round_half_even_near m k p :
  (2 <= k)%Z -> (- 2 ^ k <= 4 * m - 4 * p * 2 ^ k <= 2 ^ k)%Z ->
  Float64.round_half_even m k = p.
Proof.
  intros Hk Hm. unfold Float64.round_half_even.
  assert (Hpos : (0 < 2 ^ k)%Z) by (apply Z.pow_pos_nonneg; lia).
  pose proof (Z.div_mod m (2 ^ k) ltac:(lia)) as Hdm.
  pose proof (Z.mod_pos_bound m (2 ^ k) Hpos) as Hr.
  remember (m / 2 ^ k)%Z as q eqn:Eq. remember (m mod 2 ^ k)%Z as r eqn:Er.
  remember (2 ^ k)%Z as K eqn:EK. clear Eq Er EK. cbv zeta.
  assert (Hq : q = p \/ q = (p - 1)%Z).
  { assert (N1 : ~ (p + 1 <= q)%Z)
      by (intros G; assert (K * (p + 1) <= K * q)%Z by nia; nia).
    assert (N2 : ~ (q <= p - 2)%Z)
      by (intros G; assert (K * q <= K * (p - 2))%Z by nia; nia).
    lia. }
  destruct (Z.compare_spec (2 * r) K) as [E|E|E];
    destruct Hq as [-> | ->]; try lia; exfalso; nia.
Qed.

Lemma rint_near_integer z p :
  normal z -> (1 <= p <= 2 ^ 49)%Z ->
  inject_Z p - (1 # 4) <= F2Q z -> F2Q z <= inject_Z p + (1 # 4) ->
  Float64.is_finite (Float64.rint z) = true /\ cast_int64 (Float64.rint z) = p.
Proof.
  intros Nz Hp Vlo Vhi.
  assert (Hexp : (-1 - 53 < expo z < 50 - 52)%Z).
  { apply (normal_exponent z (-1) 50); [exact Nz| |].
    - apply Qle_trans with (inject_Z p - (1 # 4)); [|exact Vlo].
      assert (inject_Z 1 <= inject_Z p) by (rewrite <- Zle_Qle; lia).
      change (inject_Z 1) with 1 in H. change (pow2 (-1)) with (1 # 2). lra.
    - apply Qle_lt_trans with (inject_Z p + (1 # 4)); [exact Vhi|].
      assert (inject_Z p <= inject_Z (2 ^ 49)) by (rewrite <- Zle_Qle; lia).
      rewrite pow2_Z by lia.
      change (inject_Z (2 ^ 50)) with (2 * inject_Z (2 ^ 49)).
      assert (1 <= inject_Z (2 ^ 49)) by (change 1 with (inject_Z 1); rewrite <- Zle_Qle; lia).
      lra. }
  destruct z as [| | |[] m e]; try contradiction.
  cbn [normal F2Q expo] in *. destruct Nz as [Hm He].
  set (k := (- e)%Z).
  assert (Hk : (2 < k < 54)%Z) by (unfold k; lia).
  assert (Hround : Float64.round_half_even (Zpos m) k = p).
  { apply round_half_even_near; [lia|].
    assert (Pk : pow2 e * inject_Z (2 ^ k) == 1).
    { rewrite <- pow2_Z by lia. rewrite <- pow2_add.
      replace (e + k)%Z with 0%Z by (unfold k; lia). reflexivity. }
    assert (K0 : 0 < inject_Z (2 ^ k)).
    { change 0 with (inject_Z 0). rewrite <- Zlt_Qlt. apply Z.pow_pos_nonneg; lia. }
    assert (Q1 : inject_Z (4 * Zpos m) <= inject_Z (4 * p * 2 ^ k + 2 ^ k)).
    { rewrite inject_Z_plus, !inject_Z_mult. change (inject_Z 4) with 4.
      set (a := inject_Z (Zpos m)) in *. set (b := inject_Z (2 ^ k)) in *.
      set (c := pow2 e) in *. set (P := inject_Z p) in *.
      assert (a == a * (c * b)) by (rewrite Pk; ring). nra. }
    assert (Q2 : inject_Z (4 * p * 2 ^ k) <= inject_Z (4 * Zpos m + 2 ^ k)).
    { rewrite inject_Z_plus, !inject_Z_mult. change (inject_Z 4) with 4.
      set (a := inject_Z (Zpos m)) in *. set (b := inject_Z (2 ^ k)) in *.
      set (c := pow2 e) in *. set (P := inject_Z p) in *.
      assert (a == a * (c * b)) by (rewrite Pk; ring). nra. }
    rewrite <- Zle_Qle in Q1, Q2. lia. }
  unfold Float64.rint.
  replace (0 <=? e)%Z with false by (symmetry; apply Z.leb_gt; lia).
  fold k. rewrite Hround.
  destruct p as [|pp|pp]; try lia. cbn [cond_Zopp].
  change (binary_normalize Float64.prec Float64.emax (Zpos pp) 0 false)
    with (Float64.of_int (Zpos pp)).
  destruct (of_int_exact (Zpos pp)) as [Np Vp].
  { split; [lia|]. apply Z.le_lt_trans with (2 ^ 49)%Z; [lia|reflexivity]. }
  assert (Hexp' : (-53 < expo (Float64.of_int (Zpos pp)) < 50 - 52)%Z).
  { apply (normal_exponent _ 0 50); [exact Np| |]; rewrite Vp.
    - change (pow2 0) with (inject_Z 1). rewrite <- Zle_Qle. lia.
    - rewrite pow2_Z by lia. rewrite <- Zlt_Qlt.
      apply Z.le_lt_trans with (2 ^ 49)%Z; [lia|reflexivity]. }
  destruct (Float64.of_int (Zpos pp)) as [| | |[] m' e']; try contradiction.
  cbn [normal F2Q expo Float64.is_finite] in *.
  split; [reflexivity|].
  unfold cast_int64, Float64.trunc. cbn [cond_Zopp].
  replace (0 <=? e')%Z with false by (symmetry; apply Z.leb_gt; lia).
  assert (Hm' : Zpos m' = (Zpos pp * 2 ^ (- e'))%Z).
  { apply inject_Z_injective. rewrite inject_Z_mult, <- pow2_Z by lia.
    assert (Pk : pow2 e' * pow2 (- e') == 1).
    { rewrite <- pow2_add. replace (e' + - e')%Z with 0%Z by lia. reflexivity. }
    rewrite <- Vp.
    transitivity (inject_Z (Zpos m') * (pow2 e' * pow2 (- e'))); [|ring].
    rewrite Pk. ring. }
  rewrite Hm', Z.div_mul by (apply Z.pow_nonzero; lia).
  unfold int64_min, int64_max.
  assert (Zpos pp <= 2 ^ 49)%Z by lia.
  replace ((- 2 ^ 63 <=? Zpos pp) && (Zpos pp <=? 2 ^ 63 - 1))%bool with true;
    [reflexivity|].
  symmetry. apply andb_true_intro. split; apply Z.leb_le.
  - lia.
  - apply Z.le_trans with (2 ^ 49)%Z; [lia|]. discriminate.
Qed.

Lemma hundred_normal :
  normal Float64.hundred /\ F2Q Float64.hundred == 100 /\ expo Float64.hundred = (-46)%Z.
Proof.
  split; [|split].
  - vm_compute. repeat split; discriminate.
  - vm_compute. reflexivity.
  - vm_compute. reflexivity.
Qed.

(** The product computed for a row whose rate is within one rounding of
    [100 * p / t] is within a quarter of [p]. *)
Lemma product_near_count rate p t :
  (1 <= p <= t)%Z -> (t <= 2 ^ 49)%Z ->
  valid_binary Float64.prec Float64.emax rate = true ->
  Float64.is_finite rate = true ->
  (1 - u64) * (inject_Z (100 * p) / inject_Z t) <= F2Q rate ->
  F2Q rate <= (1 + u64) * (inject_Z (100 * p) / inject_Z t) ->
  let x := Float64.mul (Float64.div rate Float64.hundred) (Float64.of_int t) in
  normal x /\ inject_Z p - (1 # 4) <= F2Q x /\ F2Q x <= inject_Z p + (1 # 4).
Proof.
  intros Hp Ht Hv Hf Rlo Rhi x.
  set (PQ := inject_Z p). set (TQ := inject_Z t).
  assert (P1 : 1 <= PQ) by (change 1 with (inject_Z 1); unfold PQ; rewrite <- Zle_Qle; lia).
  assert (PT : PQ <= TQ) by (unfold PQ, TQ; rewrite <- Zle_Qle; lia).
  assert (T49 : TQ <= inject_Z (2 ^ 49)) by (unfold TQ; rewrite <- Zle_Qle; lia).
  set (B := inject_Z (2 ^ 49)) in *.
  assert (HB : B == 562949953421312) by reflexivity.
  set (c := PQ / TQ).
  assert (Hc : c * TQ == PQ) by (unfold c; field; lra).
  assert (HC : inject_Z (100 * p) / inject_Z t == 100 * c).
  { rewrite inject_Z_mult. fold PQ TQ. unfold c. change (inject_Z 100) with 100.
    field. lra. }
  rewrite HC in Rlo, Rhi. clear HC.
  assert (c1 : c <= 1) by nra.
  assert (c0 : 1 <= c * B) by nra.
  unfold u64 in Rlo, Rhi.
  set (R := F2Q rate) in *.
  (* the rate is a positive normal number *)
  assert (Rpos : pow2 (-43) <= R /\ R < pow2 7).
  { change (pow2 (-43)) with (1 # 8796093022208). change (pow2 7) with 128.
    split; nra. }
  assert (Rgt : 0 < R) by (pose proof (pow2_pos (-43)); lra).
  assert (Nr : normal rate).
  { destruct rate as [sr|sr| |[] m e]; unfold R in Rpos, Rgt; cbn [F2Q] in Rpos, Rgt;
      try (exfalso; lra).
    - exfalso. pose proof (pow2_pos e).
      assert (0 < inject_Z (Zpos m)) by (change 0 with (inject_Z 0); now rewrite <- Zlt_Qlt).
      nra.
    - apply valid_normal; [exact Hv|].
      apply Qle_trans with (pow2 (-43)); [apply pow2_le; lia|].
      destruct Rpos as [Rp _]. lra. }
  destruct hundred_normal as (Nh & Vh & Eh).
  pose proof (normal_exponent rate (-43) 7 Nr (proj1 Rpos) (proj2 Rpos)) as Er.
  (* the division *)
  destruct (div_spec rate Float64.hundred Nr Nh) as (Ny & Ylo & Yhi);
    [rewrite Eh; lia|].
  set (y := Float64.div rate Float64.hundred) in *.
  fold R in Ylo, Yhi. rewrite Vh in Ylo, Yhi. unfold u64 in Ylo, Yhi.
  set (Y := F2Q y) in *.
  assert (D : R / 100 == R * (1 # 100)) by (unfold Qdiv; reflexivity).
  rewrite D in Ylo, Yhi.
  assert (Ypos : pow2 (-50) <= Y /\ Y < pow2 1).
  { change (pow2 (-50)) with (1 # 1125899906842624). change (pow2 1) with 2.
    split; nra. }
  pose proof (normal_exponent y (-50) 1 Ny (proj1 Ypos) (proj2 Ypos)) as Ey.
  (* the total *)
  destruct (of_int_exact t) as [Nt Vt].
  { split; [lia|]. apply Z.le_lt_trans with (2 ^ 49)%Z; [lia|reflexivity]. }
  fold TQ in Vt.
  assert (Et : (0 - 53 < expo (Float64.of_int t) < 50 - 52)%Z).
  { apply normal_exponent; [exact Nt| |]; rewrite Vt.
    - change (pow2 0) with 1. lra.
    - change (pow2 50) with 1125899906842624. lra. }
  (* the multiplication *)
  destruct (mul_spec y (Float64.of_int t) Ny Nt) as (Nx & Xlo & Xhi); [lia|].
  fold x in Nx, Xlo, Xhi. fold Y in Xlo, Xhi. rewrite Vt in Xlo, Xhi.
  unfold u64 in Xlo, Xhi. set (Zx := F2Q x) in *.
  split; [exact Nx|].
  set (W := Y * TQ) in *.
  assert (A1 : (1 - (1 # 9007199254740992)) * (100 * PQ) <= R * TQ) by nra.
  assert (A2 : R * TQ <= (1 + (1 # 9007199254740992)) * (100 * PQ)) by nra.
  set (A := R * TQ) in *.
  assert (W1 : A * (1 # 100) - (1 # 9007199254740992) * (A * (1 # 100)) <= W).
  { unfold W, A. nra. }
  assert (W2 : W <= A * (1 # 100) + (1 # 9007199254740992) * (A * (1 # 100))).
  { unfold W, A. nra. }
  split; lra.
Qed.

Lemma normal_valid x :
  normal x -> valid_binary Float64.prec Float64.emax x = true.
Proof.
  destruct x as [| | |[] m e]; try contradiction.
  cbn [normal valid_binary]. intros [Hm He].
  unfold bounded, canonical_mantissa.
  rewrite (normal_digits m Hm), (fexp_normal (53 + e)) by lia.
  apply andb_true_intro. split.
  - apply Z.eqb_eq. lia.
  - apply Z.leb_le. unfold Float64.emax, Float64.prec. lia.
Qed.

Lemma normal_finite x : normal x -> Float64.is_finite x = true.
Proof. destruct x as [| | |[] m e]; try contradiction. reflexivity. Qed.

(** The rounded product of a row is the count [p] whenever the rate is
    within one rounding of [100 * p / t]. *)
Lemma product_recovers_count rate p t :
  (0 <= p <= t)%Z -> (0 < t <= 2 ^ 49)%Z ->
  valid_binary Float64.prec Float64.emax rate = true ->
  Float64.is_finite rate = true ->
  (1 - u64) * (inject_Z (100 * p) / inject_Z t) <= F2Q rate ->
  F2Q rate <= (1 + u64) * (inject_Z (100 * p) / inject_Z t) ->
  let x := Float64.mul (Float64.div rate Float64.hundred) (Float64.of_int t) in
  Float64.is_finite (Float64.rint x) = true /\ cast_int64 (Float64.rint x) = p.
Proof.
  intros Hp Ht Hv Hf Rlo Rhi x.
  destruct (Z.eq_dec p 0) as [->|Hp0].
  - (* no positive outcome: the rate is a zero *)
    assert (R0 : F2Q rate == 0).
    { change (inject_Z (100 * 0)) with 0 in Rlo, Rhi.
      assert (E : 0 / inject_Z t == 0) by (unfold Qdiv; ring).
      rewrite E in Rlo, Rhi. lra. }
    destruct (of_int_exact t) as [Nt _].
    { split; [lia|]. apply Z.le_lt_trans with (2 ^ 49)%Z; [lia|reflexivity]. }
    unfold x. clear x.
    destruct rate as [sr|sr| |sr m e]; try discriminate.
    + change Float64.hundred with (S754_finite false 7036874417766400 (-46)).
      destruct (Float64.of_int t) as [| | |[] mt et]; try contradiction.
      destruct sr; split; reflexivity.
    + exfalso. cbn [F2Q] in R0. pose proof (pow2_pos e).
      assert (0 < inject_Z (Zpos m)) by (change 0 with (inject_Z 0); now rewrite <- Zlt_Qlt).
      destruct sr; nra.
  - destruct (product_near_count rate p t) as (Nx & Xlo & Xhi); try assumption; try lia.
    apply rint_near_integer; try assumption. lia.
Qed.

(** The binary64 quotient [100 * p / t] is within one rounding of the exact
    quotient. *)
Lemma quotient_within_one_rounding p t :
  (0 <= p <= t)%Z -> (0 < t <= 2 ^ 46)%Z ->
  let rate := Float64.div (Float64.of_int (100 * p)) (Float64.of_int t) in
  valid_binary Float64.prec Float64.emax rate = true /\
  Float64.is_finite rate = true /\
  (1 - u64) * (inject_Z (100 * p) / inject_Z t) <= F2Q rate /\
  F2Q rate <= (1 + u64) * (inject_Z (100 * p) / inject_Z t).
Proof.
  intros Hp Ht rate.
  destruct (of_int_exact t) as [Nt Vt].
  { split; [lia|]. apply Z.le_lt_trans with (2 ^ 46)%Z; [lia|reflexivity]. }
  assert (T1 : 1 <= inject_Z t) by (change 1 with (inject_Z 1); rewrite <- Zle_Qle; lia).
  assert (T2 : inject_Z t <= inject_Z (2 ^ 46)) by (rewrite <- Zle_Qle; lia).
  destruct (Z.eq_dec p 0) as [->|Hp0].
  - unfold rate. change (Float64.of_int (100 * 0)) with (S754_zero false).
    destruct (Float64.of_int t) as [| | |[] mt et]; try contradiction.
    cbn. repeat split; try (unfold Qdiv; ring_simplify; lra).
  - destruct (of_int_exact (100 * p)) as [Np Vp].
    { split; [lia|]. apply Z.le_lt_trans with (100 * 2 ^ 46)%Z; [lia|reflexivity]. }
    assert (P1 : 100 <= inject_Z (100 * p))
      by (change 100 with (inject_Z 100); rewrite <- Zle_Qle; lia).
    assert (P2 : inject_Z (100 * p) <= inject_Z (100 * 2 ^ 46)) by (rewrite <- Zle_Qle; lia).
    assert (Ep : (0 - 53 < expo (Float64.of_int (100 * p)) < 53 - 52)%Z).
    { apply normal_exponent; [exact Np| |]; rewrite Vp.
      - change (pow2 0) with 1. lra.
      - change (pow2 53) with (inject_Z (2 ^ 53)).
        apply Qle_lt_trans with (inject_Z (100 * 2 ^ 46)); [exact P2|reflexivity]. }
    assert (Et : (0 - 53 < expo (Float64.of_int t) < 47 - 52)%Z).
    { apply normal_exponent; [exact Nt| |]; rewrite Vt.
      - change (pow2 0) with 1. lra.
      - change (pow2 47) with (inject_Z (2 ^ 47)).
        apply Qle_lt_trans with (inject_Z (2 ^ 46)); [exact T2|reflexivity]. }
    destruct (div_spec _ _ Np Nt) as (Nr & Rlo & Rhi); [lia|].
    fold rate in Nr, Rlo, Rhi. rewrite Vp, Vt in Rlo, Rhi.
    split; [apply normal_valid; exact Nr|].
    split; [apply normal_finite; exact Nr|].
    split; lra.
Qed.

(** A rate that is exactly [100 * p / t] is within one rounding of it. *)
Lemma exact_rate_within_one_rounding (r : Row) (p : Z) :
  (0 <= p <= total r)%Z -> (0 < total r <= 2 ^ 49)%Z ->
  valid_binary Float64.prec Float64.emax (positive_rate r) = true ->
  Float64.is_finite (positive_rate r) = true ->
  F2Q (positive_rate r) == inject_Z (100 * p) / inject_Z (total r) ->
  within_one_rounding r p.
Proof.
  intros Hp Ht Hv Hf He. unfold within_one_rounding.
  repeat (split; [assumption|]).
  assert (V : 0 <= inject_Z (100 * p) / inject_Z (total r)).
  { apply Qle_shift_div_l.
    - change 0 with (inject_Z 0). rewrite <- Zlt_Qlt. lia.
    - rewrite Qmult_0_l. change 0 with (inject_Z 0). rewrite <- Zle_Qle. lia. }
  rewrite He. unfold u64. split; lra.
Qed.

(** So is the binary64 quotient of [100 * p] by the total, up to [2^46]. *)
Lemma quotient_rate_within_one_rounding (g : string) (p t : Z) :
  (0 <= p <= t)%Z -> (0 < t <= 2 ^ 46)%Z ->
  within_one_rounding (mkRow g (ratio (100 * p) t) t) p.
Proof.
  intros Hp Ht. unfold within_one_rounding. cbn [total positive_rate].
  destruct (quotient_within_one_rounding p t Hp Ht) as (Hv & Hf & Rlo & Rhi).
  split; [assumption|]. split.
  { split; [lia|]. apply Z.le_trans with (2 ^ 46)%Z; [lia|discriminate]. }
  unfold ratio. repeat split; assumption.
Qed.

(** C8 (as the code has it).  Take any table in which every row has a total
    between 1 and [2^49] and a rate that is a finite binary64 number within
    one rounding of [100 * positive / total], for an integer [positive]
    between 0 and the total (a rate exactly equal to that quotient, or the
    binary64 quotient itself, are such rates).  The Aggregator returns and
    the count it stores for every row is exactly [positive]. *)
Theorem aggregator_round_trip (s : State) (positive : Row -> Z) :
  Forall (fun r => within_one_rounding r (positive r)) (rows (data (self s))) ->
  calculate_counts s =
  (Returned tt,
   mkState (mkTool (FrameI (map (fun r => (r, positive r)) (rows (data (self s)))))
                   (alpha (self s)) (results (self s)))
           (calls s)).
Proof.
  intros H.
  assert (Hrow : forall r, In r (rows (data (self s))) ->
            Float64.is_finite (Float64.rint (rate_times_total r)) = true /\
            count_of r = positive r).
  { intros r Hr. rewrite Forall_forall in H.
    destruct (H r Hr) as (Hp & Ht & Hv & Hf & Rlo & Rhi).
    exact (product_recovers_count (positive_rate r) (positive r) (total r)
             Hp Ht Hv Hf Rlo Rhi). }
  rewrite calculate_counts_finite.
  - do 4 f_equal. apply map_ext_in. intros r Hr.
    now rewrite (proj2 (Hrow r Hr)).
  - apply Forall_forall. intros r Hr. exact (proj1 (Hrow r Hr)).
Qed.

End RoundingError.

(** ** The theorems at concrete tables *)

(** C5: a rate of 150 % and a total of -20 are aggregated like any other
    value, to the counts 15 and -2; nothing is raised. *)
Lemma out_of_range_rows_are_aggregated :
  calculate_counts (fresh out_of_range_rows alpha05) =
  (Returned tt,
   mkState (mkTool (FrameI [(mkRow "A" (ratio 150 1) 10, 15);
                            (mkRow "B" (ratio 10 1) (-20), -2)])
                   alpha05 None) []).
Proof. vm_compute. reflexivity. Qed.

Lemma calculate_counts_checks_no_range_witness :
  calculate_counts (fresh out_of_range_rows alpha05) =
  (Returned tt,
   mkState (mkTool (FrameI (map (fun r => (r, count_of r)) out_of_range_rows))
                   alpha05 None) []).
Proof.
  apply (proj1 (calculate_counts_checks_no_range (fresh out_of_range_rows alpha05))).
  repeat constructor.
Defined.

(** C9: with group A at 0 trials, [run] returns a z-test result whose
    statistic and p-value are NaN; no exception reaches the caller. *)
Lemma zero_total_run_returns :
  (~ forall norm_sf chi2_contingency,
       exists e s',
         run norm_sf chi2_contingency (fresh zero_total_rows alpha05) = (Raised e, s')) /\
  fst (run sample_norm_sf sample_chi2 (fresh zero_total_rows alpha05)) =
  Returned (mkRunResult "Proportions Z-Test"
              (mkTestResult Float64.nan Float64.nan "not significant" None)).
Proof.
  split.
  - intros H. destruct (H sample_norm_sf sample_chi2) as (e & s' & E).
    vm_compute in E. discriminate E.
  - vm_compute. reflexivity.
Qed.

Lemma zero_total_group_returns_nan_witness :
  exists s',
    test_two_groups sample_norm_sf (counted_state zero_total_frame alpha05) =
    (Returned ("Proportions Z-Test", nan_result sample_norm_sf alpha05), s').
Proof.
  apply (proj1 (zero_total_group_returns_nan sample_norm_sf
                  (counted_state zero_total_frame alpha05) zero_total_frame eq_refl)
               "A" "B").
  - reflexivity.
  - left. split; reflexivity.
Defined.

Lemma significance_iff_p_below_alpha_witness :
  match fst (test_two_groups sample_norm_sf (counted_state two_group_frame alpha05)) with
  | Returned (_, r) =>
      significance r = "significant" <-> Float64.ltb (p_value r) alpha05 = true
  | Raised _ => False
  end /\
  match fst (test_multiple_groups sample_norm_sf sample_chi2
               (counted_state three_group_frame alpha05)) with
  | Returned (_, r) =>
      significance r = "significant" <-> Float64.ltb (p_value r) alpha05 = true
  | Raised _ => False
  end /\
  match fst (post_hoc_test sample_norm_sf (counted_state three_group_frame alpha05)) with
  | Returned pw => Forall (threshold_law alpha05) pw
  | Raised _ => False
  end /\
  match fst (run sample_norm_sf sample_chi2 (fresh two_group_rows alpha05)) with
  | Returned r =>
      significance (run_results r) = "significant" <->
      Float64.ltb (p_value (run_results r)) alpha05 = true
  | Raised _ => False
  end.
Proof.
  pose proof (significance_iff_p_below_alpha sample_norm_sf sample_chi2
                (counted_state two_group_frame alpha05)) as (H1 & _).
  pose proof (significance_iff_p_below_alpha sample_norm_sf sample_chi2
                (counted_state three_group_frame alpha05)) as (_ & H2 & H3 & _).
  pose proof (significance_iff_p_below_alpha sample_norm_sf sample_chi2
                (fresh two_group_rows alpha05)) as (_ & _ & _ & H4).
  split; [|split; [|split]].
  - destruct (test_two_groups sample_norm_sf (counted_state two_group_frame alpha05))
      as [[[name r]|e] s'] eqn:E.
    + exact (H1 name r s' eq_refl).
    + vm_compute in E. discriminate E.
  - destruct (test_multiple_groups sample_norm_sf sample_chi2
                (counted_state three_group_frame alpha05)) as [[[name r]|e] s'] eqn:E.
    + exact (proj1 (H2 name r s' eq_refl)).
    + vm_compute in E. discriminate E.
  - destruct (post_hoc_test sample_norm_sf (counted_state three_group_frame alpha05))
      as [[pw|e] s'] eqn:E.
    + exact (H3 pw s' eq_refl).
    + vm_compute in E. discriminate E.
  - destruct (run sample_norm_sf sample_chi2 (fresh two_group_rows alpha05))
      as [[r|e] s'] eqn:E.
    + exact (proj1 (H4 r s' eq_refl)).
    + vm_compute in E. discriminate E.
Defined.

Lemma run_aggregates_then_dispatches_witness :
  run sample_norm_sf sample_chi2 (fresh two_group_rows alpha05) =
  wrap_result "Proportions Z-Test"
              (test_two_groups sample_norm_sf (counted_state two_group_frame alpha05)).
Proof.
  destruct (run_aggregates_then_dispatches sample_norm_sf sample_chi2
              (fresh two_group_rows alpha05)) as [_ H].
  destruct (H tt (counted_state two_group_frame alpha05)) as (_ & H2 & _).
  - vm_compute. reflexivity.
  - apply H2. reflexivity.
Defined.

Lemma test_two_groups_rejects_other_cardinalities_witness :
  test_two_groups sample_norm_sf (counted_state three_group_frame alpha05) =
  (Raised (ValueError two_groups_message), counted_state three_group_frame alpha05).
Proof.
  apply test_two_groups_rejects_other_cardinalities.
  vm_compute. intros H. discriminate H.
Defined.

Lemma post_hoc_runs_iff_omnibus_significant_witness :
  exists r s',
    test_multiple_groups sample_norm_sf sample_chi2
                         (counted_state three_group_frame alpha05) =
    (Returned ("Chi-Square Test", r), s') /\
    forall pw, pairwise r = Some pw -> List.length pw = 3%nat.
Proof.
  destruct (post_hoc_runs_iff_omnibus_significant sample_norm_sf sample_chi2
              (counted_state three_group_frame alpha05) three_group_frame
              (Float64.of_int 3) Float64.zero eq_refl eq_refl)
    as (r & s' & H1 & _ & _ & _ & _ & H6).
  exists r, s'. split; [exact H1|].
  intros pw Hpw. exact (proj1 (H6 pw Hpw)).
Defined.

Lemma post_hoc_reads_first_row_testers_sum_rows_witness :
  exists more,
    calls (snd (test_multiple_groups sample_norm_sf sample_chi2
                  (counted_state three_group_frame alpha05))) =
    (Chi2Call [(155, 855); (1, 9); (150, 850)] :: more)%list.
Proof.
  exact (proj2 (proj2 (proj2
    (post_hoc_reads_first_row_testers_sum_rows sample_norm_sf sample_chi2
       (counted_state three_group_frame alpha05) three_group_frame eq_refl)))).
Defined.

(** Group A has two rows: the post-hoc comparison of B with A reads A's
    first row (150 of 1000), the chi-square table holds A's sums (155 of
    1010). *)
Example first_row_is_not_the_sum :
  first_row "A" three_group_frame = Some (mkRow "A" (ratio 15 1) 1000, 150) /\
  group_positive "A" three_group_frame = 155 /\
  group_total "A" three_group_frame = 1010 /\
  calls (snd (test_multiple_groups sample_norm_sf sample_chi2
                (counted_state three_group_frame alpha05))) =
  [Chi2Call [(155, 855); (1, 9); (150, 850)];
   ZTestCall (1, 150) (10, 1000);
   ZTestCall (1, 150) (10, 1000);
   ZTestCall (150, 150) (1000, 1000)].
Proof. vm_compute. repeat split; reflexivity. Qed.

Lemma test_two_groups_symmetric_witness :
  same_up_to_sign
    (fst (test_two_groups sample_norm_sf (counted_state two_group_frame alpha05)))
    (fst (test_two_groups sample_norm_sf
            (counted_state (rev two_group_frame) alpha05))).
Proof.
  apply (test_two_groups_symmetric sample_norm_sf
           (counted_state two_group_frame alpha05)
           (counted_state (rev two_group_frame) alpha05)
           two_group_frame (rev two_group_frame)).
  - reflexivity.
  - reflexivity.
  - apply Permutation_rev.
  - reflexivity.
  - reflexivity.
Defined.

(** C8: rate exactly 100 %, total [2^53 + 1]: the recovered count is [2^53],
    one short of the total. *)
Lemma round_trip_fails_beyond_binary64_integers :
  calculate_counts (fresh huge_total_rows alpha05) =
  (Returned tt,
   mkState (mkTool (FrameI [(mkRow "A" Float64.hundred huge_total, 2 ^ 53)])
                   alpha05 None) []) /\
  2 ^ 53 <> huge_total.
Proof. split; [vm_compute; reflexivity | discriminate]. Qed.

Lemma aggregator_round_trip_witness :
  calculate_counts (fresh round_trip_rows alpha05) =
  (Returned tt,
   mkState (mkTool (FrameI (map (fun r => (r, 1)) round_trip_rows)) alpha05 None) []).
Proof.
  apply (aggregator_round_trip (fresh round_trip_rows alpha05) (fun _ => 1)).
  apply Forall_cons; [|apply Forall_cons; [|apply Forall_nil]];
    vm_compute; intuition discriminate.
Defined.

(** * Further properties of the methods *)

(** ** The Aggregator alone *)

Lemma calculate_counts_results s :
  results (self (snd (calculate_counts s))) = results (self s).
Proof.
  rewrite calculate_counts_spec. destruct (astype_int _); reflexivity.
Qed.

(** X1.  Running the Aggregator a second time changes nothing: it returns
    or raises as the first time did and leaves the state the first run
    left, whatever count column the table carried before. *)
Theorem calculate_counts_idempotent (s : State) :
  calculate_counts (snd (calculate_counts s)) = calculate_counts s.
Proof.
  pose proof (calculate_counts_rows s) as Hr.
  pose proof (calculate_counts_alpha s) as Ha.
  pose proof (calculate_counts_results s) as Hres.
  pose proof (calculate_counts_calls s) as Hc.
  rewrite (calculate_counts_spec (snd (calculate_counts s))). cbv zeta.
  rewrite Hr, Ha, Hres, Hc. symmetry. apply calculate_counts_spec.
Qed.


(** ** A rate that is not a number *)

Lemma non_finite_product r :
  Float64.is_finite (positive_rate r) = false ->
  Float64.is_finite (Float64.rint (rate_times_total r)) = false.
Proof.
  unfold rate_times_total. destruct (positive_rate r) as [s|s| |s m e];
    try discriminate; intros _.
  - assert (E : Float64.div (S754_infinity s) Float64.hundred = S754_infinity s)
      by (destruct s; reflexivity).
    rewrite E.
    destruct (Float64.of_int (total r)) as [t|t| |t mt et]; reflexivity.
  - reflexivity.
Qed.

Lemma calculate_counts_raises s r :
  In r (rows (data (self s))) ->
  Float64.is_finite (Float64.rint (rate_times_total r)) = false ->
  calculate_counts s =
  (Raised IntCastingNaNError,
   mkState (mkTool (product_frame (rows (data (self s))))
                   (alpha (self s)) (results (self s)))
           (calls s)).
Proof.
  intros Hin Hnf. rewrite calculate_counts_spec. cbv zeta. unfold astype_int.
  replace (forallb Float64.is_finite
             (map Float64.rint (map rate_times_total (rows (data (self s))))))
    with false.
  - unfold product_frame. now rewrite combine_map_self.
  - symmetry. apply not_true_is_false. intros H.
    rewrite forallb_forall in H.
    rewrite (H (Float64.rint (rate_times_total r))) in Hnf; [discriminate|].
    now apply in_map, in_map.
Qed.

Section StateAndCalls.

Variable norm_sf : Float64.float -> Float64.float.
Variable chi2_contingency : list (Z * Z) -> Outcome (Float64.float * Float64.float).

(** X2.  A NaN or an infinite rate on any row makes [run] raise the
    integer-conversion error before any test: no library routine is called,
    the results of an earlier run stay in place, and the table is left with
    the float64 column of products. *)
Theorem non_finite_rate_stops_run (s : State) (r : Row) :
  In r (rows (data (self s))) ->
  Float64.is_finite (positive_rate r) = false ->
  run norm_sf chi2_contingency s =
  (Raised IntCastingNaNError,
   mkState (mkTool (product_frame (rows (data (self s))))
                   (alpha (self s)) (results (self s)))
           (calls s)).
Proof.
  intros Hin Hnf. rewrite run_spec.
  rewrite (calculate_counts_raises s r Hin (non_finite_product r Hnf)).
  reflexivity.
Qed.

(** X3.  [run] assigns [self.results] only when it returns: the stored record
    is then the returned one; when it raises, whatever an earlier run stored
    is still there. *)
Theorem run_stores_result_on_success_only (s : State) :
  (forall r s', run norm_sf chi2_contingency s = (Returned r, s') ->
                results (self s') = Some r) /\
  (forall e s', run norm_sf chi2_contingency s = (Raised e, s') ->
                results (self s') = results (self s)).
Proof.
  rewrite run_spec.
  pose proof (calculate_counts_results s) as Hres.
  destruct (calculate_counts s) as [[[]|e0] s1]; cbn [snd] in Hres.
  - pose proof (tester_self norm_sf chi2_contingency s1) as Hs.
    destruct (tester norm_sf chi2_contingency s1 s1) as [[tr|e1] s2];
      cbn [snd] in Hs; split.
    + intros r s' H. inversion H. reflexivity.
    + intros e s' H. discriminate H.
    + intros r s' H. discriminate H.
    + intros e s' H. inversion H. subst. now rewrite Hs.
  - split.
    + intros r s' H. discriminate H.
    + intros e s' H. inversion H. subst. exact Hres.
Qed.


(** X4.  Called on a table that has no count column yet (before
    [calculate_counts]), the testers raise [KeyError] for
    ["positive_count"] without calling a library routine or touching the
    state: the two-group tester when there are two distinct labels, the
    multi-group tester always, the post-hoc comparison as soon as there is a
    pair to compare.  With fewer than two distinct labels the post-hoc
    comparison returns an empty table instead. *)
Theorem testers_need_the_count_column (s : State) (rs : list Row) :
  data (self s) = Frame rs ->
  let n := List.length (unique (map group rs)) in
  (n = 2%nat ->
   test_two_groups norm_sf s = (Raised (KeyError "positive_count"), s)) /\
  test_multiple_groups norm_sf chi2_contingency s =
    (Raised (KeyError "positive_count"), s) /\
  ((2 <= n)%nat ->
   post_hoc_test norm_sf s = (Raised (KeyError "positive_count"), s)) /\
  ((n < 2)%nat -> post_hoc_test norm_sf s = (Returned [], s)).
Proof.
  intros Hd n.
  assert (Hl : labels (data (self s)) = map group rs) by (now rewrite Hd).
  assert (Hc : counted (data (self s)) = Raised (KeyError "positive_count"))
    by (now rewrite Hd).
  split; [|split; [|split]].
  - intros Hn. unfold test_two_groups, bind, get_self, lift. rewrite Hl.
    unfold n in Hn.
    destruct (unique (map group rs)) as [|g0 [|g1 [|g2 t]]]; try discriminate.
    now rewrite Hc.
  - rewrite test_multiple_groups_spec. now rewrite Hc.
  - intros Hn. unfold post_hoc_test, bind, get_self. cbn [self]. rewrite Hl.
    unfold n in Hn.
    destruct (unique (map group rs)) as [|g0 [|g1 t]]; cbn [List.length] in Hn;
      try lia.
    cbn [combinations2 map app mapM]. unfold bind at 1.
    rewrite post_hoc_pair_spec, Hc. reflexivity.
  - intros Hn. unfold post_hoc_test, bind, get_self. cbn [self]. rewrite Hl.
    unfold n in Hn.
    destruct (unique (map group rs)) as [|g0 [|g1 t]]; cbn [List.length] in Hn;
      try lia; reflexivity.
Qed.


(** ** The calls [run] makes *)

Lemma post_hoc_pairs_trace l : forall s rs,
  counted (data (self s)) = Returned rs ->
  (forall pr, In pr l -> In (fst pr) (map label rs) /\ In (snd pr) (map label rs)) ->
  exists pw zs,
    mapM (post_hoc_pair norm_sf) l s
    = (Returned pw, mkState (self s) (calls s ++ zs)) /\
    List.length pw = List.length l /\
    List.length zs = List.length l /\
    forallb is_ztest zs = true.
Proof.
  induction l as [|pr t IH]; intros s rs Hc Hin.
  - exists [], []. cbn [mapM]. unfold ret. rewrite app_nil_r.
    destruct s. repeat split; reflexivity.
  - destruct (Hin pr (or_introl eq_refl)) as [H1 H2].
    destruct (first_row_some _ _ H1) as (r1 & E1 & _).
    destruct (first_row_some _ _ H2) as (r2 & E2 & _).
    cbn [mapM]. unfold bind at 1.
    rewrite post_hoc_pair_spec, Hc, !first_values_first_row, E1, E2. cbv zeta.
    set (c := ZTestCall (fst (snd r1, total (fst r1)), fst (snd r2, total (fst r2)))
                        (snd (snd r1, total (fst r1)), snd (snd r2, total (fst r2)))).
    destruct (IH (mkState (self s) (calls s ++ [c])) rs Hc
                 (fun p Hp => Hin p (or_intror Hp)))
      as (pw & zs & E & Lp & Lz & Fz).
    unfold bind at 1. rewrite E. unfold ret. cbn [self calls].
    eexists. exists (c :: zs). rewrite <- app_assoc. cbn [app].
    split; [reflexivity|]. cbn [List.length forallb is_ztest c andb].
    repeat split; try lia. exact Fz.
Qed.

Lemma post_hoc_test_trace s rs :
  counted (data (self s)) = Returned rs ->
  exists pw zs,
    post_hoc_test norm_sf s = (Returned pw, mkState (self s) (calls s ++ zs)) /\
    List.length pw = choose2 (List.length (unique (labels (data (self s))))) /\
    List.length zs = choose2 (List.length (unique (labels (data (self s))))) /\
    forallb is_ztest zs = true.
Proof.
  intros Hc. unfold post_hoc_test, bind, get_self. cbn [self].
  rewrite <- combinations2_length.
  apply (post_hoc_pairs_trace _ s rs Hc).
  intros [a b] Hin. apply combinations2_In_both in Hin.
  rewrite !unique_In, (labels_counted _ _ Hc) in Hin. exact Hin.
Qed.

Lemma test_multiple_groups_trace s rs name r s' :
  counted (data (self s)) = Returned rs ->
  test_multiple_groups norm_sf chi2_contingency s = (Returned (name, r), s') ->
  let n := List.length (unique (labels (data (self s)))) in
  name = "Chi-Square Test" /\
  (forall pw, pairwise r = Some pw -> List.length pw = choose2 n) /\
  exists zs,
    calls s' = (calls s ++ Chi2Call (observed_table rs) :: zs)%list /\
    forallb is_ztest zs = true /\
    List.length zs =
      if Float64.ltb (p_value r) (alpha (self s)) then choose2 n else 0%nat.
Proof.
  intros Hc. rewrite test_multiple_groups_spec, Hc. cbv zeta.
  destruct (chi2_contingency (observed_table rs)) as [[chi2 p]|e]; [|discriminate].
  destruct (Float64.ltb p (alpha (self s))) eqn:Ep.
  - destruct (post_hoc_test_trace (after_chi2 s (observed_table rs)) rs Hc)
      as (pw & zs & E & Lp & Lz & Fz).
    rewrite E. intros H. inversion H. subst. cbn [p_value pairwise self calls after_chi2].
    rewrite Ep. split; [reflexivity|]. split.
    + intros pw' Hpw. inversion Hpw. subst. exact Lp.
    + exists zs. rewrite <- app_assoc. repeat split; assumption.
  - intros H. inversion H. subst. cbn [p_value pairwise calls after_chi2].
    rewrite Ep. split; [reflexivity|]. split.
    + discriminate.
    + exists []. repeat split.
Qed.

(** What a returning [run] went through. *)
Lemma run_returned_inv s r s' :
  run norm_sf chi2_contingency s = (Returned r, s') ->
  exists s1 rs tr s2,
    calculate_counts s = (Returned tt, s1) /\
    counted (data (self s1)) = Returned rs /\
    labels (data (self s1)) = labels (data (self s)) /\
    alpha (self s1) = alpha (self s) /\
    calls s1 = calls s /\
    tester norm_sf chi2_contingency s1 s1 = (Returned tr, s2) /\
    r = mkRunResult (fst tr) (snd tr) /\
    calls s' = calls s2.
Proof.
  rewrite run_spec.
  pose proof (calculate_counts_rows s) as Hr.
  pose proof (calculate_counts_alpha s) as Ha.
  pose proof (calculate_counts_calls s) as Hcl.
  pose proof (calculate_counts_spec s) as Hspec. cbv zeta in Hspec.
  destruct (calculate_counts s) as [[[]|e0] s1] eqn:E; [|discriminate].
  cbn [snd] in Hr, Ha, Hcl.
  assert (Hl : labels (data (self s1)) = labels (data (self s)))
    by (unfold labels; now rewrite Hr).
  assert (Hc : exists rs, counted (data (self s1)) = Returned rs).
  { destruct (astype_int _) as [ints|e]; [|discriminate].
    inversion Hspec. eexists. reflexivity. }
  destruct Hc as [rs Hc].
  destruct (tester norm_sf chi2_contingency s1 s1) as [[tr|e1] s2] eqn:Et;
    [|discriminate].
  intros H. inversion H. subst r s'. cbn [calls].
  exists s1, rs, tr, s2. repeat split; auto.
Qed.

(** X5.  The library calls of a returning [run], in order: with exactly two
    distinct labels a single z-test and no chi-square test; with any other
    number one chi-square test, followed by one z-test per pair of labels
    when the omnibus p-value is below alpha and by nothing otherwise. *)
Theorem run_call_trace (s : State) r s' :
  run norm_sf chi2_contingency s = (Returned r, s') ->
  let n := List.length (unique (labels (data (self s)))) in
  (n = 2%nat ->
   exists count nobs, calls s' = (calls s ++ [ZTestCall count nobs])%list) /\
  (n <> 2%nat ->
   exists observed zs,
     calls s' = (calls s ++ Chi2Call observed :: zs)%list /\
     forallb is_ztest zs = true /\
     List.length zs =
       if Float64.ltb (p_value (run_results r)) (alpha (self s))
       then choose2 n else 0%nat).
Proof.
  intros H n. apply run_returned_inv in H.
  destruct H as (s1 & rs & tr & s2 & _ & Hc & Hl & Ha & Hcl & Et & -> & ->).
  unfold tester in Et. rewrite Hl in Et. fold n in Et. split.
  - intros Hn. rewrite Hn in Et. cbn [Nat.eqb] in Et.
    destruct tr as [name t]. apply test_two_groups_returned in Et.
    destruct Et as (g0 & g1 & rs' & v0 & v1 & _ & _ & _ & _ & _ & _ & ->).
    cbn [calls]. rewrite Hcl. eexists. eexists. reflexivity.
  - intros Hn. apply Nat.eqb_neq in Hn. rewrite Hn in Et.
    destruct tr as [name t].
    destruct (test_multiple_groups_trace s1 rs name t s2 Hc Et)
      as (_ & _ & zs & Ez & Fz & Lz).
    rewrite Hl, Ha, Hcl in *. fold n in Lz.
    exists (observed_table rs), zs. cbn [run_results snd]. repeat split; assumption.
Qed.



(** ** Running twice *)

(** The testers read the table and alpha, nothing else of the state. *)
Lemma post_hoc_pairs_same l : forall a b,
  data (self a) = data (self b) -> alpha (self a) = alpha (self b) ->
  fst (mapM (post_hoc_pair norm_sf) l a) = fst (mapM (post_hoc_pair norm_sf) l b).
Proof.
  induction l as [|pr t IH]; intros a b Hd Ha; [reflexivity|].
  cbn [mapM]. unfold bind at 1 3. rewrite !post_hoc_pair_spec, Hd, Ha.
  destruct (counted (data (self b))) as [rs|e]; [|reflexivity].
  destruct (first_values (fst pr) rs) as [v1|e]; [|reflexivity].
  destruct (first_values (snd pr) rs) as [v2|e]; [|reflexivity].
  cbv zeta. unfold bind.
  match goal with
  | |- fst (match mapM _ _ ?sa with _ => _ end) =
       fst (match mapM _ _ ?sb with _ => _ end) =>
      specialize (IH sa sb Hd Ha);
      destruct (mapM (post_hoc_pair norm_sf) t sa) as [oa sa'];
      destruct (mapM (post_hoc_pair norm_sf) t sb) as [ob sb']
  end.
  cbn [fst] in IH. subst oa. destruct ob; reflexivity.
Qed.

Lemma test_two_groups_same a b :
  data (self a) = data (self b) -> alpha (self a) = alpha (self b) ->
  fst (test_two_groups norm_sf a) = fst (test_two_groups norm_sf b).
Proof.
  intros Hd Ha. unfold test_two_groups, bind, get_self, lift. rewrite Hd, Ha.
  destruct (unique (labels (data (self b)))) as [|g0 [|g1 [|g2 l]]];
    try reflexivity.
  destruct (counted (data (self b))) as [rs|e]; [|reflexivity].
  destruct (loc g0 (groupby_sum rs)) as [v0|e]; [|reflexivity].
  destruct (loc g1 (groupby_sum rs)) as [v1|e]; [|reflexivity].
  rewrite !call_ztest_spec.
  destruct (proportions_ztest norm_sf (fst v0, fst v1) (snd v0, snd v1)).
  reflexivity.
Qed.

Lemma test_multiple_groups_same a b :
  data (self a) = data (self b) -> alpha (self a) = alpha (self b) ->
  fst (test_multiple_groups norm_sf chi2_contingency a) =
  fst (test_multiple_groups norm_sf chi2_contingency b).
Proof.
  intros Hd Ha. rewrite !test_multiple_groups_spec, Hd, Ha.
  destruct (counted (data (self b))) as [rs|e]; [|reflexivity].
  cbv zeta.
  destruct (chi2_contingency (observed_table rs)) as [[chi2 p]|e]; [|reflexivity].
  destruct (Float64.ltb p (alpha (self b))); [|reflexivity].
  pose proof (post_hoc_pairs_same
                (combinations2 (unique (labels (data (self b)))))
                (after_chi2 a (observed_table rs))
                (after_chi2 b (observed_table rs)) Hd Ha) as H.
  unfold post_hoc_test, bind, get_self. cbn [self after_chi2] in *.
  rewrite Hd.
  destruct (mapM _ _ _) as [oa sa]. destruct (mapM _ _ _) as [ob sb].
  cbn [fst] in H. subst oa. destruct ob; reflexivity.
Qed.

Lemma tester_same a b :
  data (self a) = data (self b) -> alpha (self a) = alpha (self b) ->
  fst (tester norm_sf chi2_contingency a a) =
  fst (tester norm_sf chi2_contingency b b).
Proof.
  intros Hd Ha. unfold tester. rewrite Hd. destruct (Nat.eqb _ 2).
  - now apply test_two_groups_same.
  - now apply test_multiple_groups_same.
Qed.

(** The outcome of [run] and the table it leaves depend on the rows and on
    alpha only. *)
Lemma run_same a b :
  rows (data (self a)) = rows (data (self b)) ->
  alpha (self a) = alpha (self b) ->
  fst (run norm_sf chi2_contingency a) = fst (run norm_sf chi2_contingency b) /\
  data (self (snd (run norm_sf chi2_contingency a))) =
  data (self (snd (run norm_sf chi2_contingency b))).
Proof.
  intros Hr Ha. rewrite !run_spec, !calculate_counts_spec. cbv zeta.
  rewrite Hr.
  destruct (astype_int _) as [ints|e]; [|split; reflexivity].
  match goal with
  | |- context [tester _ _ ?sa ?sa] =>
      match goal with
      | |- context [tester _ _ ?sb ?sb] =>
          tryif constr_eq sa sb then fail else
            (pose proof (tester_same sa sb eq_refl Ha) as Ht;
             pose proof (tester_self norm_sf chi2_contingency sa) as Hsa;
             pose proof (tester_self norm_sf chi2_contingency sb) as Hsb;
             destruct (tester norm_sf chi2_contingency sa sa) as [oa sa'];
             destruct (tester norm_sf chi2_contingency sb sb) as [ob sb'])
      end
  end.
  cbn [fst snd self] in *. subst oa.
  destruct ob; cbn [fst snd self data]; rewrite Hsa, Hsb; split; reflexivity.
Qed.

Lemma run_results_field s :
  results (self (snd (run norm_sf chi2_contingency s))) =
  match fst (run norm_sf chi2_contingency s) with
  | Returned r => Some r
  | Raised _ => results (self s)
  end.
Proof.
  rewrite run_spec.
  pose proof (calculate_counts_results s) as Hres.
  destruct (calculate_counts s) as [[[]|e0] s1]; cbn [snd] in Hres; [|exact Hres].
  pose proof (tester_self norm_sf chi2_contingency s1) as Hs.
  destruct (tester norm_sf chi2_contingency s1 s1) as [[tr|e1] s2];
    cbn [snd fst self results] in *; [reflexivity|].
  now rewrite Hs.
Qed.

Lemma run_rows_alpha s :
  rows (data (self (snd (run norm_sf chi2_contingency s)))) = rows (data (self s)) /\
  alpha (self (snd (run norm_sf chi2_contingency s))) = alpha (self s).
Proof.
  rewrite run_spec.
  pose proof (calculate_counts_rows s) as Hr.
  pose proof (calculate_counts_alpha s) as Ha.
  destruct (calculate_counts s) as [[[]|e] s1]; cbn [snd] in Hr, Ha; [|now split].
  pose proof (tester_self norm_sf chi2_contingency s1) as Hs.
  destruct (tester norm_sf chi2_contingency s1 s1) as [[tr|e] s2];
    cbn [snd self data alpha] in *; rewrite Hs; now split.
Qed.

Lemma tool_eq (t u : ABTestProportionsTool) :
  data t = data u -> alpha t = alpha u -> results t = results u -> t = u.
Proof. destruct t, u. cbn. now intros -> -> ->. Qed.

(** X7.  [run] can be repeated: a second [run] on the object the first one
    left returns the same record, or raises the same exception, and leaves
    the object as the first one did.  Counts are recomputed from the rates
    and totals, never accumulated. *)
Theorem run_repeatable (s : State) :
  let s1 := snd (run norm_sf chi2_contingency s) in
  fst (run norm_sf chi2_contingency s1) = fst (run norm_sf chi2_contingency s) /\
  self (snd (run norm_sf chi2_contingency s1)) = self s1.
Proof.
  intros s1.
  destruct (run_rows_alpha s) as [Hr Ha]. fold s1 in Hr, Ha.
  destruct (run_same s1 s Hr Ha) as [Ho Hd].
  split; [exact Ho|].
  destruct (run_rows_alpha s1) as [_ Ha1].
  apply tool_eq.
  - exact Hd.
  - exact Ha1.
  - rewrite (run_results_field s1), Ho. unfold s1.
    rewrite (run_results_field s).
    destruct (fst (run norm_sf chi2_contingency s)); reflexivity.
Qed.


End StateAndCalls.

(** ** The order of the rows and the chi-square test *)

Lemma string_compare_lt_trans a : forall b c,
  String.compare a b = Lt -> String.compare b c = Lt -> String.compare a c = Lt.
Proof.
  induction a as [|x a IH]; intros [|y b] [|z c]; cbn [String.compare];
    try discriminate; try reflexivity.
  destruct (Ascii.compare x y) eqn:Exy; try discriminate;
    destruct (Ascii.compare y z) eqn:Eyz; try discriminate.
  - apply Ascii.compare_eq_iff in Exy. subst y. rewrite Eyz. apply IH.
  - apply Ascii.compare_eq_iff in Exy. subst y. now rewrite Eyz.
  - apply Ascii.compare_eq_iff in Eyz. subst z. now rewrite Exy.
  - unfold Ascii.compare in *.
    rewrite (proj2 (N.compare_lt_iff _ _)
               (N.lt_trans _ _ _ (proj1 (N.compare_lt_iff _ _) Exy)
                                 (proj1 (N.compare_lt_iff _ _) Eyz))).
    reflexivity.
Qed.

Lemma string_leb_trans a b c :
  String.leb a b = true -> String.leb b c = true -> String.leb a c = true.
Proof.
  unfold String.leb.
  destruct (String.compare a b) eqn:Eab; try discriminate;
    destruct (String.compare b c) eqn:Ebc; try discriminate; intros _ _.
  - apply String.compare_eq_iff in Eab. subst b. now rewrite Ebc.
  - apply String.compare_eq_iff in Eab. subst b. now rewrite Ebc.
  - apply String.compare_eq_iff in Ebc. subst c. now rewrite Eab.
  - now rewrite (string_compare_lt_trans a b c Eab Ebc).
Qed.

(** Insertions into the sorted index commute. *)
Lemma insert_sorted_comm x y l :
  insert_sorted x (insert_sorted y l) = insert_sorted y (insert_sorted x l).
Proof.
  induction l as [|z t IH]; cbn [insert_sorted].
  - destruct (String.leb x y) eqn:Exy, (String.leb y x) eqn:Eyx;
      cbn [insert_sorted]; rewrite ?Exy, ?Eyx; try reflexivity.
    + now rewrite (String.leb_antisym x y Exy Eyx).
    + destruct (String.leb_total x y); congruence.
  - destruct (String.leb x z) eqn:Exz, (String.leb y z) eqn:Eyz;
      cbn [insert_sorted].
    + destruct (String.leb x y) eqn:Exy, (String.leb y x) eqn:Eyx;
        cbn [insert_sorted]; rewrite ?Exz, ?Eyz; try reflexivity.
      * now rewrite (String.leb_antisym x y Exy Eyx).
      * destruct (String.leb_total x y); congruence.
    + rewrite Exz.
      destruct (String.leb y x) eqn:Eyx; cbn [insert_sorted].
      * rewrite (string_leb_trans y x z Eyx Exz) in Eyz. discriminate.
      * now rewrite Eyz.
    + rewrite Eyz.
      destruct (String.leb x y) eqn:Exy; cbn [insert_sorted].
      * rewrite (string_leb_trans x y z Exy Eyz) in Exz. discriminate.
      * now rewrite Exz.
    + rewrite Exz, Eyz. now rewrite IH.
Qed.

Lemma sorted_Permutation l l' : Permutation l l' -> sorted l = sorted l'.
Proof.
  unfold sorted.
  induction 1 as [|x l l' _ IH|x y l|l l' l'' _ IH1 _ IH2]; cbn [fold_right].
  - reflexivity.
  - now rewrite IH.
  - apply insert_sorted_comm.
  - now transitivity (fold_right insert_sorted [] l').
Qed.

(** The per-group sums, and with them the table handed to the chi-square
    routine, do not depend on the order of the rows. *)
Lemma groupby_sum_Permutation rs rs' :
  Permutation rs rs' -> groupby_sum rs = groupby_sum rs'.
Proof.
  intros H. unfold groupby_sum.
  rewrite (sorted_Permutation _ _
             (unique_Permutation _ _
                (Permutation_map (fun rc => group (fst rc)) H))).
  apply map_ext. intros g.
  pose proof (group_positive_Permutation g _ _ H) as Hp.
  pose proof (group_total_Permutation g _ _ H) as Ht.
  unfold group_positive, group_total in Hp, Ht. now rewrite Hp, Ht.
Qed.

Lemma observed_table_Permutation rs rs' :
  Permutation rs rs' -> observed_table rs = observed_table rs'.
Proof.
  intros H. unfold observed_table. now rewrite (groupby_sum_Permutation _ _ H).
Qed.

(** ** One row per group *)

Lemma wrap64_int64 z : is_int64 z -> wrap64 z = z.
Proof.
  unfold is_int64, int64_min, int64_max, wrap64. intros H.
  rewrite Z.mod_small; lia.
Qed.

Lemma sum64_single z : is_int64 z -> sum64 [z] = z.
Proof. intros H. unfold sum64. cbn [fold_left]. now apply wrap64_int64. Qed.

Lemma rows_of_absent g rs : ~ In g (map label rs) -> rows_of g rs = [].
Proof.
  unfold rows_of. induction rs as [|rc t IH]; cbn [map filter In]; [reflexivity|].
  intros H. destruct (String.eqb (group (fst rc)) g) eqn:E.
  - apply String.eqb_eq in E. exfalso. apply H. now left.
  - apply IH. intros Hin. apply H. now right.
Qed.

Lemma rows_of_single g rs :
  NoDup (map label rs) -> In g (map label rs) ->
  exists rc, rows_of g rs = [rc] /\ In rc rs.
Proof.
  unfold rows_of. induction rs as [|rc t IH]; cbn [map filter In]; [tauto|].
  intros Hnd Hin. apply NoDup_cons_iff in Hnd. destruct Hnd as [Hrc Hnd].
  destruct (String.eqb (group (fst rc)) g) eqn:E.
  - apply String.eqb_eq in E. exists rc. split; [|now left].
    f_equal. apply (rows_of_absent g t). unfold label in Hrc. now rewrite <- E.
  - destruct Hin as [Hin|Hin].
    + unfold label in Hin. rewrite Hin, String.eqb_refl in E. discriminate.
    + destruct (IH Hnd Hin) as (rc' & H1 & H2). exists rc'. auto.
Qed.

Lemma first_values_group_sums g rs :
  NoDup (map label rs) ->
  (forall rc, In rc rs -> is_int64 (snd rc) /\ is_int64 (total (fst rc))) ->
  In g (map label rs) ->
  first_values g rs = Returned (group_positive g rs, group_total g rs).
Proof.
  intros Hnd Hr Hin. unfold first_values, group_positive, group_total.
  destruct (rows_of_single g rs Hnd Hin) as (rc & -> & Hrc).
  destruct (Hr rc Hrc) as [H1 H2]. cbn [map].
  now rewrite (sum64_single _ H1), (sum64_single _ H2).
Qed.


Lemma ltb_nan_r p : Float64.ltb p Float64.nan = false.
Proof. destruct p as [[]|[]| |[] m e]; reflexivity. Qed.

Lemma ltb_nan_l a : Float64.ltb Float64.nan a = false.
Proof. reflexivity. Qed.

Section RowsAndLabels.

Variable norm_sf : Float64.float -> Float64.float.
Variable chi2_contingency : list (Z * Z) -> Outcome (Float64.float * Float64.float).

(** X8.  Take two counted frames holding the same rows in different orders
    and the same alpha.  The multi-group tester hands the same table to the
    chi-square routine on both, so both runs return the same statistic,
    p-value and label, and both or neither attach a pairwise table; if the
    routine raises, both raise the same exception. *)
Theorem chi_square_ignores_row_order (s s' : State) rs rs' :
  counted (data (self s)) = Returned rs ->
  counted (data (self s')) = Returned rs' ->
  Permutation rs rs' ->
  alpha (self s) = alpha (self s') ->
  observed_table rs = observed_table rs' /\
  same_omnibus (fst (test_multiple_groups norm_sf chi2_contingency s))
               (fst (test_multiple_groups norm_sf chi2_contingency s')).
Proof.
  intros Hc Hc' Hp Ha.
  pose proof (observed_table_Permutation _ _ Hp) as Ho.
  split; [exact Ho|].
  rewrite !test_multiple_groups_spec, Hc, Hc', <- Ho, <- Ha. cbv zeta.
  destruct (chi2_contingency (observed_table rs)) as [[chi2 p]|e];
    [|reflexivity].
  destruct (Float64.ltb p (alpha (self s))).
  - destruct (post_hoc_test_total norm_sf (after_chi2 s (observed_table rs)) rs Hc)
      as (pw & s2 & -> & _).
    destruct (post_hoc_test_total norm_sf (after_chi2 s' (observed_table rs)) rs' Hc')
      as (pw' & s2' & -> & _).
    cbn. repeat split; discriminate.
  - cbn. repeat split; reflexivity.
Qed.

(** X9.  When every label sits on one row and the values fit in int64, the
    first row of a group is the whole group: the post-hoc comparison reads
    the very sums the other testers use, and on a table with two labels its
    single line carries the statistic, the p-value and the label of the
    two-group test. *)
Theorem single_rows_post_hoc_equals_two_group_test (s : State) rs :
  counted (data (self s)) = Returned rs ->
  NoDup (map label rs) ->
  (forall rc, In rc rs -> is_int64 (snd rc) /\ is_int64 (total (fst rc))) ->
  (forall g, In g (map label rs) -> first_values g rs = loc g (groupby_sum rs)) /\
  (forall g0 g1,
      unique (labels (data (self s))) = [g0; g1] ->
      exists r q s1 s2,
        test_two_groups norm_sf s = (Returned ("Proportions Z-Test", r), s1) /\
        post_hoc_test norm_sf s = (Returned [q], s2) /\
        group1 q = g0 /\ group2 q = g1 /\
        pw_statistic q = statistic r /\
        pw_p_value q = p_value r /\
        pw_significance q = significance r /\
        calls s2 = calls s1).
Proof.
  intros Hc Hnd Hr. split.
  - intros g Hg. rewrite (loc_groupby_sum g rs Hg).
    now apply first_values_group_sums.
  - intros g0 g1 Hu.
    assert (H0 : In g0 (map label rs)).
    { rewrite <- (labels_counted _ _ Hc), <- unique_In, Hu. now left. }
    assert (H1 : In g1 (map label rs)).
    { rewrite <- (labels_counted _ _ Hc), <- unique_In, Hu. right. now left. }
    rewrite (test_two_groups_total norm_sf s rs g0 g1 Hc Hu).
    unfold post_hoc_test, bind, get_self. cbn [self]. rewrite Hu.
    cbn [combinations2 map app mapM]. unfold bind at 1.
    rewrite post_hoc_pair_spec, Hc. cbn [fst snd].
    rewrite (first_values_group_sums g0 rs Hnd Hr H0).
    rewrite (first_values_group_sums g1 rs Hnd Hr H1).
    cbv zeta. cbn [fst snd]. unfold bind, ret.
    eexists. eexists. eexists. eexists.
    split; [reflexivity|]. split; [reflexivity|].
    cbn. repeat split; reflexivity.
Qed.


(** X11.  The label a two-group test returns is one of ["significant"] and
    ["not significant"], the latter exactly when the comparison
    [p < alpha] fails: the sentences naming the greater group, and the
    sentence for no difference, that the method builds first are never
    returned; and the result has no pairwise table. *)
Theorem two_group_label_never_names_a_group (s : State) name r s' :
  test_two_groups norm_sf s = (Returned (name, r), s') ->
  (significance r = "significant" \/ significance r = "not significant") /\
  (significance r = "not significant" <->
   Float64.ltb (p_value r) (alpha (self s)) = false) /\
  pairwise r = None.
Proof.
  intros H. apply test_two_groups_returned in H.
  destruct H as (g0 & g1 & rs & v0 & v1 & _ & _ & _ & _ & _ & -> & _).
  cbn [significance p_value pairwise]. unfold label_of.
  destruct (Float64.ltb _ _); repeat split; auto; discriminate.
Qed.

(** X12.  A NaN on either side of the comparison is never significant: when
    alpha is NaN, or the p-value of the test comes out as NaN, the result
    [run] returns is labelled ["not significant"] and carries no pairwise
    table. *)
Theorem nan_is_never_significant (s : State) r s' :
  run norm_sf chi2_contingency s = (Returned r, s') ->
  alpha (self s) = Float64.nan \/ p_value (run_results r) = Float64.nan ->
  significance (run_results r) = "not significant" /\
  pairwise (run_results r) = None.
Proof.
  rewrite run_spec.
  pose proof (calculate_counts_alpha s) as Ha.
  destruct (calculate_counts s) as [[[]|e0] s1]; [|discriminate].
  cbn [snd] in Ha. rewrite <- Ha. unfold tester.
  destruct (Nat.eqb _ 2).
  - destruct (test_two_groups norm_sf s1) as [[[name t]|e] s2] eqn:E; [|discriminate].
    intros H. inversion H. subst. cbn [run_results snd].
    apply test_two_groups_returned in E.
    destruct E as (g0 & g1 & rs & v0 & v1 & _ & _ & _ & _ & _ & -> & _).
    cbn [significance p_value pairwise]. unfold label_of.
    intros [Hn|Hn]; rewrite Hn, ?ltb_nan_r, ?ltb_nan_l; split; reflexivity.
  - rewrite test_multiple_groups_spec.
    destruct (counted (data (self s1))) as [rs|e]; [|discriminate].
    cbv zeta.
    destruct (chi2_contingency (observed_table rs)) as [[chi2 p]|e]; [|discriminate].
    destruct (Float64.ltb p (alpha (self s1))) eqn:Ep.
    + destruct (post_hoc_test norm_sf _) as [[pw|e] s2]; [|discriminate].
      intros H. inversion H. subst. cbn [run_results snd p_value].
      intros [Hn|Hn]; rewrite Hn in Ep.
      * rewrite ltb_nan_r in Ep. discriminate.
      * rewrite ltb_nan_l in Ep. discriminate.
    + intros H. inversion H. subst.
      cbn [run_results snd p_value significance pairwise]. unfold label_of.
      rewrite Ep. intros _. split; reflexivity.
Qed.

End RowsAndLabels.

(** ** The significance level *)

(** [p < a] and [a <= b] give [p < b], for binary64 comparisons. *)
Lemma ltb_leb_trans p a b :
  Float64.ltb p a = true -> Float64.leb a b = true -> Float64.ltb p b = true.
Proof.
  unfold Float64.ltb, Float64.leb, SFltb, SFleb, SFcompare.
  destruct p as [sp|sp| |sp mp ep], a as [sa|sa| |sa ma ea],
           b as [sb|sb| |sb mb eb];
    try discriminate;
    try (destruct sp, sa, sb; try discriminate; reflexivity);
    try (destruct sp, sa; try discriminate; reflexivity);
    try (destruct sa, sb; try discriminate; reflexivity);
    try (destruct sp, sb; try discriminate; reflexivity).
  destruct sp, sa, sb; try discriminate; try reflexivity;
    destruct (Z.compare_spec ep ea), (Z.compare_spec ea eb),
             (Z.compare_spec ep eb); try discriminate; try reflexivity;
      try lia; subst;
      rewrite ?Pos.compare_cont_spec; unfold Pos.switch_Eq;
      destruct (Pos.compare_spec mp ma), (Pos.compare_spec ma mb),
               (Pos.compare_spec mp mb); cbn; try discriminate;
        try reflexivity; try lia; subst; try lia.
Qed.

Section SignificanceLevel.

Variable norm_sf : Float64.float -> Float64.float.
Variable chi2_contingency : list (Z * Z) -> Outcome (Float64.float * Float64.float).

(** X13.  Alpha only moves the threshold.  Two runs on the same rows with
    different significance levels choose the same test and return the same
    statistic and p-value, or raise the same exception; and when the second
    alpha is at least the first, a result significant at the first is
    significant at the second, and so is the pairwise table attached at the
    second if one was at the first. *)
Theorem alpha_only_moves_the_threshold (s s' : State) :
  rows (data (self s)) = rows (data (self s')) ->
  same_test_values (fst (run norm_sf chi2_contingency s))
                   (fst (run norm_sf chi2_contingency s')) /\
  (Float64.leb (alpha (self s)) (alpha (self s')) = true ->
   forall r r',
     fst (run norm_sf chi2_contingency s) = Returned r ->
     fst (run norm_sf chi2_contingency s') = Returned r' ->
     (significance (run_results r) = "significant" ->
      significance (run_results r') = "significant") /\
     (pairwise (run_results r) <> None -> pairwise (run_results r') <> None)).
Proof.
  intros Hr. rewrite !run_spec, !calculate_counts_spec. cbv zeta.
  rewrite Hr.
  destruct (astype_int _) as [ints|e0] eqn:Ei;
    [|split; [reflexivity|intros _ r r' H; discriminate H]].
  set (rs := combine (rows (data (self s'))) ints).
  set (s1 := mkState (mkTool (FrameI rs) (alpha (self s)) _) _).
  set (s1' := mkState (mkTool (FrameI rs) (alpha (self s')) _) _).
  assert (Hc : counted (data (self s1)) = Returned rs) by reflexivity.
  assert (Hc' : counted (data (self s1')) = Returned rs) by reflexivity.
  unfold tester.
  change (labels (data (self s1))) with (labels (FrameI rs)).
  change (labels (data (self s1'))) with (labels (FrameI rs)).
  destruct (Nat.eqb _ 2) eqn:En.
  - apply Nat.eqb_eq in En.
    destruct (unique (labels (FrameI rs))) as [|g0 [|g1 [|g2 l]]] eqn:Hu;
      try discriminate.
    rewrite (test_two_groups_total norm_sf s1 rs g0 g1 Hc Hu).
    rewrite (test_two_groups_total norm_sf s1' rs g0 g1 Hc' Hu).
    cbn [fst snd test_used run_results statistic p_value same_test_values].
    split; [repeat split|].
    intros Hle r r' H H'. inversion H. inversion H'.
    cbn [run_results significance pairwise]. split; [|intros F; now contradiction F].
    cbn [self alpha s1 s1'].
    rewrite !label_of_significant. intros Hlt.
    exact (ltb_leb_trans _ _ _ Hlt Hle).
  - rewrite !test_multiple_groups_spec, Hc, Hc'. cbv zeta.
    destruct (chi2_contingency (observed_table rs)) as [[chi2 p]|e1];
      [|split; [reflexivity|intros _ r r' H; discriminate H]].
    cbn [self alpha s1 s1'].
    destruct (post_hoc_test_total norm_sf (after_chi2 s1 (observed_table rs)) rs Hc)
      as (pw & s2 & Eh & _).
    destruct (post_hoc_test_total norm_sf (after_chi2 s1' (observed_table rs)) rs Hc')
      as (pw' & s2' & Eh' & _).
    rewrite Eh, Eh'.
    destruct (Float64.ltb p (alpha (self s))) eqn:Ep;
      destruct (Float64.ltb p (alpha (self s'))) eqn:Ep';
      cbn [fst snd test_used run_results statistic p_value same_test_values];
      (split; [repeat split|]);
      intros Hle r r' H H'; inversion H; inversion H';
      cbn [run_results significance pairwise];
      rewrite !label_of_significant;
      try (rewrite (ltb_leb_trans _ _ _ Ep Hle) in Ep'; discriminate Ep');
      split; try discriminate; try (intros _; assumption);
      try (intros F; congruence); try (intros F; now contradiction F).
Qed.

End SignificanceLevel.

(** ** The further properties at concrete tables *)

Lemma non_finite_rate_stops_run_witness :
  run sample_norm_sf sample_chi2 (fresh nan_rate_rows alpha05) =
  (Raised IntCastingNaNError,
   mkState (mkTool (product_frame nan_rate_rows) alpha05 None) []).
Proof.
  apply (non_finite_rate_stops_run sample_norm_sf sample_chi2
           (fresh nan_rate_rows alpha05) (mkRow "B" Float64.nan 1000)).
  - right. left. reflexivity.
  - reflexivity.
Defined.

Lemma run_stores_result_on_success_only_witness :
  exists r s',
    run sample_norm_sf sample_chi2 (fresh two_group_rows alpha05) = (Returned r, s') /\
    results (self s') = Some r.
Proof.
  destruct (run sample_norm_sf sample_chi2 (fresh two_group_rows alpha05))
    as [[r|e] s'] eqn:E.
  - exists r, s'. split; [reflexivity|].
    exact (proj1 (run_stores_result_on_success_only sample_norm_sf sample_chi2
                    (fresh two_group_rows alpha05)) r s' E).
  - vm_compute in E. discriminate E.
Defined.

Lemma testers_need_the_count_column_witness :
  test_two_groups sample_norm_sf (fresh two_group_rows alpha05) =
  (Raised (KeyError "positive_count"), fresh two_group_rows alpha05).
Proof.
  apply (proj1 (testers_need_the_count_column sample_norm_sf sample_chi2
                  (fresh two_group_rows alpha05) two_group_rows eq_refl)).
  reflexivity.
Defined.

Lemma run_call_trace_witness :
  exists r s' observed zs,
    run sample_norm_sf sample_chi2 (fresh three_group_rows alpha05) = (Returned r, s') /\
    calls s' = (Chi2Call observed :: zs)%list /\
    forallb is_ztest zs = true /\
    List.length zs =
      if Float64.ltb (p_value (run_results r)) alpha05 then 3%nat else 0%nat.
Proof.
  destruct (run sample_norm_sf sample_chi2 (fresh three_group_rows alpha05))
    as [[r|e] s'] eqn:E.
  - destruct (proj2 (run_call_trace sample_norm_sf sample_chi2
                       (fresh three_group_rows alpha05) r s' E))
      as (observed & zs & H).
    + vm_compute. intros H. discriminate H.
    + exists r, s', observed, zs. split; [reflexivity|exact H].
  - vm_compute in E. discriminate E.
Defined.


Lemma chi_square_ignores_row_order_witness :
  observed_table three_group_frame = observed_table (rev three_group_frame) /\
  same_omnibus
    (fst (test_multiple_groups sample_norm_sf sample_chi2
            (counted_state three_group_frame alpha05)))
    (fst (test_multiple_groups sample_norm_sf sample_chi2
            (counted_state (rev three_group_frame) alpha05))).
Proof.
  apply (chi_square_ignores_row_order sample_norm_sf sample_chi2
           (counted_state three_group_frame alpha05)
           (counted_state (rev three_group_frame) alpha05)
           three_group_frame (rev three_group_frame)).
  - reflexivity.
  - reflexivity.
  - apply Permutation_rev.
  - reflexivity.
Defined.

Lemma single_rows_post_hoc_equals_two_group_test_witness :
  exists r q s1 s2,
    test_two_groups sample_norm_sf (counted_state two_group_frame alpha05) =
    (Returned ("Proportions Z-Test", r), s1) /\
    post_hoc_test sample_norm_sf (counted_state two_group_frame alpha05) =
    (Returned [q], s2) /\
    group1 q = "A" /\ group2 q = "B" /\
    pw_statistic q = statistic r /\
    pw_p_value q = p_value r /\
    pw_significance q = significance r /\
    calls s2 = calls s1.
Proof.
  apply (proj2 (single_rows_post_hoc_equals_two_group_test sample_norm_sf
                  (counted_state two_group_frame alpha05) two_group_frame
                  eq_refl
                  ltac:(repeat constructor; cbn; intuition discriminate)
                  ltac:(intros rc [<-|[<-|[]]]; vm_compute;
                        intuition discriminate))).
  reflexivity.
Defined.


Lemma two_group_label_never_names_a_group_witness :
  exists name r s',
    test_two_groups sample_norm_sf (counted_state two_group_frame alpha05) =
    (Returned (name, r), s') /\
    (significance r = "significant" \/ significance r = "not significant") /\
    (significance r = "not significant" <->
     Float64.ltb (p_value r) alpha05 = false) /\
    pairwise r = None.
Proof.
  destruct (test_two_groups sample_norm_sf (counted_state two_group_frame alpha05))
    as [[[name r]|e] s'] eqn:E.
  - exists name, r, s'. split; [reflexivity|].
    exact (two_group_label_never_names_a_group sample_norm_sf
             (counted_state two_group_frame alpha05) name r s' E).
  - vm_compute in E. discriminate E.
Defined.

Lemma nan_is_never_significant_witness :
  exists r s',
    run sample_norm_sf sample_chi2 (fresh zero_total_rows alpha05) = (Returned r, s') /\
    p_value (run_results r) = Float64.nan /\
    significance (run_results r) = "not significant" /\
    pairwise (run_results r) = None.
Proof.
  destruct (run sample_norm_sf sample_chi2 (fresh zero_total_rows alpha05))
    as [[r|e] s'] eqn:E.
  - assert (Hp : p_value (run_results r) = Float64.nan).
    { vm_compute in E. inversion E. reflexivity. }
    exists r, s'. split; [reflexivity|]. split; [exact Hp|].
    exact (nan_is_never_significant sample_norm_sf sample_chi2
             (fresh zero_total_rows alpha05) r s' E (or_intror Hp)).
  - vm_compute in E. discriminate E.
Defined.

Lemma alpha_only_moves_the_threshold_witness :
  same_test_values
    (fst (run sample_norm_sf sample_chi2 (fresh three_group_rows alpha05)))
    (fst (run sample_norm_sf sample_chi2 (fresh three_group_rows (ratio 10 100)))) /\
  forall r r',
    fst (run sample_norm_sf sample_chi2 (fresh three_group_rows alpha05)) = Returned r ->
    fst (run sample_norm_sf sample_chi2 (fresh three_group_rows (ratio 10 100))) =
    Returned r' ->
    (significance (run_results r) = "significant" ->
     significance (run_results r') = "significant") /\
    (pairwise (run_results r) <> None -> pairwise (run_results r') <> None).
Proof.
  destruct (alpha_only_moves_the_threshold sample_norm_sf sample_chi2
              (fresh three_group_rows alpha05)
              (fresh three_group_rows (ratio 10 100)) eq_refl) as [H1 H2].
  split; [exact H1|]. apply H2. vm_compute. reflexivity.
Defined.
